(** * NovaSphere: the orbit updater and the camera-focus machine

    A shallow embedding of the [SolarSystem] class of the enhanced
    simulation script (the variant with shader materials and camera
    follow mode), together with the properties of its per-frame update,
    its focus transitions and its pointer handlers, of the orbit lines
    and the star field it builds, and of the buttons of its panels.

    The basic script has the same [createPlanet], the same orbital
    update and the same handlers, without the shader uniforms and the
    follow mode; where it tests [currentFocusedPlanet] the enhanced one
    tests [cameraFollowMode].

    JavaScript numbers are modelled as real numbers: rounding of the
    IEEE doubles is not part of the model.  The three.js and gsap calls
    the class makes are modelled by what they write: a [Vector3] is its
    three coordinates, [camera.lookAt] records the point looked at, and
    [gsap.to] records the transition that was requested.  The writes
    that the tween engine makes while a transition is in flight are
    events of their own, beside the frames: a write somewhere on the way
    (which point it writes depends on the engine's clock and easing, so
    any point is allowed) and the last write, at the end point, after
    which no transition is in flight. *)

From Stdlib Require Import Reals Lra Lia List String Bool Arith NArith ZArith Psatz.
Import ListNotations.

Open Scope string_scope.
Open Scope list_scope.
Open Scope R_scope.

(** ** three.js values used by the class *)

Module Three.

Record Vector3 : Type := mkVector3 { vx : R; vy : R; vz : R }.

Record Spherical : Type := mkSpherical { radius : R; phi : R; theta : R }.

Definition origin : Vector3 := mkVector3 0 0 0.

(** [Vector3.add] *)
Definition add (a b : Vector3) : Vector3 :=
  mkVector3 (vx a + vx b) (vy a + vy b) (vz a + vz b).

Definition sub (a b : Vector3) : Vector3 :=
  mkVector3 (vx a - vx b) (vy a - vy b) (vz a - vz b).

Definition scale (k : R) (a : Vector3) : Vector3 :=
  mkVector3 (k * vx a) (k * vy a) (k * vz a).

(** [Vector3.lerp(v, alpha)]: [this.x += (v.x - this.x) * alpha], and the
    same on the two other coordinates. *)
Definition lerp (this v : Vector3) (alpha : R) : Vector3 :=
  mkVector3 (vx this + (vx v - vx this) * alpha)
            (vy this + (vy v - vy this) * alpha)
            (vz this + (vz v - vz this) * alpha).

(** [Vector3.setFromSpherical(s)] *)
Definition setFromSpherical (s : Spherical) : Vector3 :=
  let sinPhiRadius := sin (phi s) * radius s in
  mkVector3 (sinPhiRadius * sin (theta s))
            (cos (phi s) * radius s)
            (sinPhiRadius * cos (theta s)).

(** [v.applyMatrix4(new Matrix4().makeRotationY(angle))]: the matrix has
    rows (c, 0, s, 0), (0, 1, 0, 0), (-s, 0, c, 0), (0, 0, 0, 1), so the
    perspective divide is by 1. *)
Definition applyRotationY (angle : R) (v : Vector3) : Vector3 :=
  let c := cos angle in
  let s := sin angle in
  mkVector3 (c * vx v + s * vz v) (vy v) (- s * vx v + c * vz v).

(** Squared Euclidean length, dot product, and squared distance between
    two points. *)
Definition lengthSq (a : Vector3) : R :=
  vx a * vx a + vy a * vy a + vz a * vz a.

Definition dot (a b : Vector3) : R :=
  vx a * vx b + vy a * vy b + vz a * vz b.

Definition distanceToSquared (a b : Vector3) : R := lengthSq (sub a b).

End Three.

Import Three.

(** ** Data of the class *)

(** An entry of the [planetData] literal.  The texture URL, the
    description and the facts table are display strings that no update
    reads; they are left out. *)
Record PlanetData : Type := mkPlanetData {
  d_name : string;
  d_radius : R;
  d_color : N;
  d_orbitRadius : R;
  d_speed : R;
  d_rotationSpeed : R
}.

(** The material of a planet: a [ShaderMaterial], whose [uniforms.time]
    value is carried, or a [MeshPhongMaterial], which has no uniforms. *)
Inductive Material : Type :=
| ShaderMaterial (time : R)
| MeshPhongMaterial.

Record Mesh : Type := mkMesh {
  mesh_name : string;
  geometry_radius : R;
  position : Vector3;
  rotation_y : R
}.

(** The object pushed on [this.planets] by [createPlanet]. *)
Record Planet : Type := mkPlanet {
  name : string;
  mesh : Mesh;
  orbitRadius : R;
  angle : R;
  speed : R;
  baseSpeed : R;
  rotationSpeed : R;
  color : N;
  material : Material
}.

(** [this.sun]: its rotation about the vertical axis and the [time]
    uniform of its shader material. *)
Record Sun : Type := mkSun { sun_rotation_y : R; sun_time : R }.

(** [this.controls] *)
Record Controls : Type := mkControls {
  isMouseDown : bool;
  mouseX : R;
  mouseY : R;
  minDistance : R;
  maxDistance : R;
  c_rotationSpeed : R;
  spherical : Spherical;
  target : Vector3
}.

(** [this.camera]: where it is and the point it was last turned to. *)
Record Camera : Type := mkCamera { cam_position : Vector3; cam_lookAt : Vector3 }.

(** What the overlay element [planet-info] shows: whether it carries the
    class [active] and the text of [planet-name]. *)
Record PlanetInfo : Type := mkPlanetInfo { active : bool; shownName : string }.

(** What an [onUpdate] callback of a camera transition looks at: a fixed
    point, or the live position of the mesh of the planet at an index of
    [this.planets]. *)
Inductive LookTarget : Type :=
| LookPoint (p : Vector3)
| LookPlanet (index : nat).

(** A transition requested from the tween engine by [gsap.to]. *)
Record Tween : Type := mkTween {
  tw_duration : R;
  tw_to : Vector3;
  tw_look : LookTarget
}.

(** The fields of a [SolarSystem] instance that the update loop, the focus
    transitions and the pointer handlers read or write.
    [currentFocusedPlanet] is a reference to one of the objects of
    [this.planets]: it is kept as the index of that object, so that the
    update loop and the follow code see the same planet. *)
Record SolarSystem : Type := mkSolarSystem {
  isPaused : bool;
  globalSpeedMultiplier : R;
  planets : list Planet;
  sun : option Sun;
  stars : option R;
  controls : Controls;
  camera : Camera;
  defaultCameraPosition : Vector3;
  currentFocusedPlanet : option nat;
  cameraFollowMode : bool;
  planetInfo : PlanetInfo;
  tween : option Tween
}.

(** ** Record updates *)

Definition set_planets (f : list Planet -> list Planet) (s : SolarSystem) : SolarSystem :=
  mkSolarSystem (isPaused s) (globalSpeedMultiplier s) (f (planets s)) (sun s)
    (stars s) (controls s) (camera s) (defaultCameraPosition s)
    (currentFocusedPlanet s) (cameraFollowMode s) (planetInfo s) (tween s).

Definition set_sun (v : option Sun) (s : SolarSystem) : SolarSystem :=
  mkSolarSystem (isPaused s) (globalSpeedMultiplier s) (planets s) v
    (stars s) (controls s) (camera s) (defaultCameraPosition s)
    (currentFocusedPlanet s) (cameraFollowMode s) (planetInfo s) (tween s).

Definition set_stars (v : option R) (s : SolarSystem) : SolarSystem :=
  mkSolarSystem (isPaused s) (globalSpeedMultiplier s) (planets s) (sun s)
    v (controls s) (camera s) (defaultCameraPosition s)
    (currentFocusedPlanet s) (cameraFollowMode s) (planetInfo s) (tween s).

Definition set_controls (v : Controls) (s : SolarSystem) : SolarSystem :=
  mkSolarSystem (isPaused s) (globalSpeedMultiplier s) (planets s) (sun s)
    (stars s) v (camera s) (defaultCameraPosition s)
    (currentFocusedPlanet s) (cameraFollowMode s) (planetInfo s) (tween s).

Definition set_camera (v : Camera) (s : SolarSystem) : SolarSystem :=
  mkSolarSystem (isPaused s) (globalSpeedMultiplier s) (planets s) (sun s)
    (stars s) (controls s) v (defaultCameraPosition s)
    (currentFocusedPlanet s) (cameraFollowMode s) (planetInfo s) (tween s).

Definition set_focus (p : option nat) (follow : bool) (s : SolarSystem) : SolarSystem :=
  mkSolarSystem (isPaused s) (globalSpeedMultiplier s) (planets s) (sun s)
    (stars s) (controls s) (camera s) (defaultCameraPosition s)
    p follow (planetInfo s) (tween s).

Definition set_planetInfo (v : PlanetInfo) (s : SolarSystem) : SolarSystem :=
  mkSolarSystem (isPaused s) (globalSpeedMultiplier s) (planets s) (sun s)
    (stars s) (controls s) (camera s) (defaultCameraPosition s)
    (currentFocusedPlanet s) (cameraFollowMode s) v (tween s).

Definition set_tween (v : option Tween) (s : SolarSystem) : SolarSystem :=
  mkSolarSystem (isPaused s) (globalSpeedMultiplier s) (planets s) (sun s)
    (stars s) (controls s) (camera s) (defaultCameraPosition s)
    (currentFocusedPlanet s) (cameraFollowMode s) (planetInfo s) v.

Definition set_isPaused (v : bool) (s : SolarSystem) : SolarSystem :=
  mkSolarSystem v (globalSpeedMultiplier s) (planets s) (sun s)
    (stars s) (controls s) (camera s) (defaultCameraPosition s)
    (currentFocusedPlanet s) (cameraFollowMode s) (planetInfo s) (tween s).

(** ** Construction of the registry *)

(** The [planetData] literal of [createSolarSystem].  Saturn and Neptune
    write [orbitRadius] twice in their object literal; the later value
    is the one the object keeps. *)
Definition planetData : list PlanetData :=
  [ mkPlanetData "Mercury" (12/10) 9205843%N 8 (3/1000) (3/10000);
    mkPlanetData "Venus" (18/10) 16762441%N 12 (5/1000) (8/10000);
    mkPlanetData "Earth" 2 7050198%N 16 (8/1000) (1/100);
    mkPlanetData "Mars" (16/10) 12665870%N 20 (5/1000) (9/1000);
    mkPlanetData "Jupiter" (55/10) 14207645%N 28 (1/1000) (2/100);
    mkPlanetData "Saturn" (48/10) 16429691%N 36 (4/10000) (18/1000);
    mkPlanetData "Uranus" (32/10) 5230823%N 44 (15/100000) (15/1000);
    mkPlanetData "Neptune" (31/10) 4944093%N 50 (8/100000) (16/1000) ].

(** The [switch (data.name)] of [createPlanet]: Saturn gets a Phong
    material, the seven other named planets a shader material whose
    [time] uniform starts at 0, any other name the default Phong
    material. *)
Definition createMaterial (data : PlanetData) : Material :=
  if (String.eqb (d_name data) "Earth" || String.eqb (d_name data) "Mars"
      || String.eqb (d_name data) "Jupiter" || String.eqb (d_name data) "Venus"
      || String.eqb (d_name data) "Mercury" || String.eqb (d_name data) "Uranus"
      || String.eqb (d_name data) "Neptune")%bool
  then ShaderMaterial 0
  else MeshPhongMaterial.

(** The planet object built by [createPlanet(data, index)]. *)
Definition newPlanet (data : PlanetData) (index : nat) : Planet :=
  let mesh := mkMesh (d_name data) (d_radius data)
                     (mkVector3 (d_orbitRadius data) 0 0) 0 in
  mkPlanet (d_name data) mesh (d_orbitRadius data)
           ((INR index * PI * 2) / 8)
           (d_speed data) (d_speed data) (d_rotationSpeed data)
           (d_color data) (createMaterial data).

Definition createPlanet (data : PlanetData) (index : nat) (s : SolarSystem)
  : SolarSystem :=
  set_planets (fun ps => ps ++ [newPlanet data index]) s.

Definition createSun (s : SolarSystem) : SolarSystem :=
  set_sun (Some (mkSun 0 0)) s.

(** [array.forEach((data, index) => f(data, index))], from index [i]. *)
Fixpoint forEachFrom {A St : Type} (f : A -> nat -> St -> St) (l : list A)
  (i : nat) (s : St) : St :=
  match l with
  | [] => s
  | a :: l' => forEachFrom f l' (S i) (f a i s)
  end.

(** [createSolarSystem], over the literal it is given. *)
Definition createSolarSystemWith (data : list PlanetData) (s : SolarSystem)
  : SolarSystem :=
  forEachFrom createPlanet data 0%nat (createSun s).

Definition createSolarSystem : SolarSystem -> SolarSystem :=
  createSolarSystemWith planetData.

(** ** Camera and controls *)

(** [updateCameraFromControls] *)
Definition updateCameraFromControls (s : SolarSystem) : SolarSystem :=
  let position := add (setFromSpherical (spherical (controls s)))
                      (target (controls s)) in
  set_camera (mkCamera position (target (controls s))) s.

(** The fields set by the constructor.  The camera and the controls are
    [null] until [setupCamera] and [setupControls] run; the values given
    to them here are overwritten there before anything reads them. *)
Definition constructor : SolarSystem :=
  mkSolarSystem false 1 [] None None
    (mkControls false 0 0 0 0 0 (mkSpherical 0 0 0) origin)
    (mkCamera origin origin)
    (mkVector3 0 30 50)
    None false
    (mkPlanetInfo false "Planet Information")
    None.

Definition setupCamera (s : SolarSystem) : SolarSystem :=
  set_camera (mkCamera (defaultCameraPosition s) origin) s.

Definition setupControls (s : SolarSystem) : SolarSystem :=
  updateCameraFromControls
    (set_controls
       (mkControls false 0 0 10 200 (5/1000) (mkSpherical 50 (PI / 3) 0) origin)
       s).

(** [createStarField]: a fresh [Points] object, not yet rotated. *)
Definition createStarField (s : SolarSystem) : SolarSystem :=
  set_stars (Some 0) s.

(** The instance as [init] leaves it just before its call of [animate]. *)
Definition boot : SolarSystem :=
  createSolarSystem (createStarField (setupControls (setupCamera constructor))).

(** ** Controls of the panel *)

Fixpoint updateAt {A : Type} (i : nat) (f : A -> A) (l : list A) : list A :=
  match l, i with
  | [], _ => []
  | a :: l', O => f a :: l'
  | a :: l', S i' => a :: updateAt i' f l'
  end.

Definition set_speed (v : R) (p : Planet) : Planet :=
  mkPlanet (name p) (mesh p) (orbitRadius p) (angle p) v (baseSpeed p)
           (rotationSpeed p) (color p) (material p).

(** The [input] listener that [setupSpeedControls] attaches to the slider
    of the planet at [index]: [planet.speed = planet.baseSpeed * multiplier].
    Sliders exist for the planets of the registry only. *)
Definition sliderInput (index : nat) (multiplier : R) (s : SolarSystem)
  : SolarSystem :=
  set_planets (updateAt index (fun planet => set_speed (baseSpeed planet * multiplier) planet)) s.

(** The [click] listener of the pause button. *)
Definition pauseClick (s : SolarSystem) : SolarSystem :=
  set_isPaused (negb (isPaused s)) s.

(** [gsap.to(this.camera.position, {duration: 2, x, y, z, onUpdate})]:
    the call itself writes nothing to the camera, it hands the transition
    to the tween engine, whose ticks are [tweenUpdate] and [tweenComplete]
    below. *)
Definition gsapTo (to : Vector3) (look : LookTarget) (s : SolarSystem)
  : SolarSystem :=
  set_tween (Some (mkTween 2 to look)) s.

(** [resetCameraView] *)
Definition resetCameraView (s : SolarSystem) : SolarSystem :=
  let s1 := set_focus None false s in
  let c := controls s1 in
  let s2 := set_controls
              (mkControls (isMouseDown c) (mouseX c) (mouseY c) (minDistance c)
                 (maxDistance c) (c_rotationSpeed c)
                 (mkSpherical 50 (PI / 3) 0) origin) s1 in
  gsapTo (defaultCameraPosition s2) (LookPoint origin) s2.

Definition removeActive (s : SolarSystem) : SolarSystem :=
  set_planetInfo (mkPlanetInfo false (shownName (planetInfo s))) s.

(** The [click] listener of the reset button. *)
Definition resetClick (s : SolarSystem) : SolarSystem :=
  let s1 := resetCameraView s in
  let s2 := removeActive s1 in
  set_focus None false s2.

(** The [click] listener of the close button of the overlay. *)
Definition closeInfoClick (s : SolarSystem) : SolarSystem :=
  let s1 := removeActive s in
  let s2 := set_focus None false s1 in
  resetCameraView s2.

(** ** Focus transitions *)

(** [showObjectInfo(objectData)]: fills the overlay and adds [active]. *)
Definition showObjectInfo (objectName : string) (s : SolarSystem) : SolarSystem :=
  set_planetInfo (mkPlanetInfo true objectName) s.

(** [focusOnSun] *)
Definition focusOnSun (s : SolarSystem) : SolarSystem :=
  let s1 := set_focus None false s in
  let s2 := showObjectInfo "Sun" s1 in
  gsapTo (mkVector3 0 15 25) (LookPoint origin) s2.

(** [focusOnPlanet(planet)], where [planet] is the object at [index]. *)
Definition focusOnPlanet (index : nat) (planet : Planet) (s : SolarSystem)
  : SolarSystem :=
  let s1 := set_focus (Some index) true s in
  let s2 := showObjectInfo (name planet) s1 in
  let distance := geometry_radius (mesh planet) * 5 in
  let p := position (mesh planet) in
  let targetPosition :=
    mkVector3 (vx p) (vy p + distance * (5/10)) (vz p + distance) in
  gsapTo targetPosition (LookPlanet index) s2.

(** The first object returned by the ray intersection: the Sun, the mesh
    of the planet at an index, or a child object (the glow of the Sun, the
    rings of Saturn), which is none of these. *)
Inductive Hit : Type :=
| HitSun
| HitMesh (index : nat)
| HitChild.

(** [checkPlanetClick], given the result of [intersectObjects]. *)
Definition checkPlanetClick (intersects : option Hit) (s : SolarSystem)
  : SolarSystem :=
  match intersects with
  | None => s
  | Some HitSun => focusOnSun s
  | Some (HitMesh i) =>
      match nth_error (planets s) i with
      | Some planet => focusOnPlanet i planet s
      | None => s
      end
  | Some HitChild => s
  end.

(** ** Pointer handlers *)

Definition set_mouse (down : bool) (x y : R) (c : Controls) : Controls :=
  mkControls down x y (minDistance c) (maxDistance c) (c_rotationSpeed c)
             (spherical c) (target c).

Definition set_spherical (sp : Spherical) (c : Controls) : Controls :=
  mkControls (isMouseDown c) (mouseX c) (mouseY c) (minDistance c)
             (maxDistance c) (c_rotationSpeed c) sp (target c).

(** [onMouseDown(event)] *)
Definition onMouseDown (clientX clientY : R) (s : SolarSystem) : SolarSystem :=
  set_controls (set_mouse true clientX clientY (controls s)) s.

(** [Math.max(0.1, Math.min(Math.PI - 0.1, phi))] *)
Definition constrainPhi (phi : R) : R := Rmax (1/10) (Rmin (PI - 1/10) phi).

(** The body shared by [onMouseMove] and [onTouchMove] once the pointer is
    known to be held: the spherical angles are moved by the pixel delta,
    the pointer is remembered, and the camera is repositioned unless the
    follow mode is on. *)
Definition drag (clientX clientY : R) (s : SolarSystem) : SolarSystem :=
  let c := controls s in
  let deltaX := clientX - mouseX c in
  let deltaY := clientY - mouseY c in
  let theta' := theta (spherical c) - deltaX * c_rotationSpeed c in
  let phi' := phi (spherical c) + deltaY * c_rotationSpeed c in
  let sp := mkSpherical (radius (spherical c)) (constrainPhi phi') theta' in
  let c' := set_mouse (isMouseDown c) clientX clientY (set_spherical sp c) in
  let s' := set_controls c' s in
  if cameraFollowMode s' then s' else updateCameraFromControls s'.

(** The drag body of the basic script, which has no follow mode and
    tests the focus reference instead. *)
Definition dragBasic (clientX clientY : R) (s : SolarSystem) : SolarSystem :=
  let c := controls s in
  let deltaX := clientX - mouseX c in
  let deltaY := clientY - mouseY c in
  let theta' := theta (spherical c) - deltaX * c_rotationSpeed c in
  let phi' := phi (spherical c) + deltaY * c_rotationSpeed c in
  let sp := mkSpherical (radius (spherical c)) (constrainPhi phi') theta' in
  let c' := set_mouse (isMouseDown c) clientX clientY (set_spherical sp c) in
  let s' := set_controls c' s in
  match currentFocusedPlanet s' with
  | Some _ => s'
  | None => updateCameraFromControls s'
  end.

(** [onMouseMove(event)].  With the button up the handler only moves the
    tooltip and the cursor, which are not fields of the model. *)
Definition onMouseMove (clientX clientY : R) (s : SolarSystem) : SolarSystem :=
  if isMouseDown (controls s) then drag clientX clientY s else s.

(** [onMouseUp] and [onTouchEnd] *)
Definition onMouseUp (s : SolarSystem) : SolarSystem :=
  set_controls (set_mouse false (mouseX (controls s)) (mouseY (controls s))
                  (controls s)) s.

(** [onMouseWheel(event)] *)
Definition onMouseWheel (deltaY : R) (s : SolarSystem) : SolarSystem :=
  let c := controls s in
  let scale := if Rlt_dec 0 deltaY then 11/10 else 9/10 in
  let r := radius (spherical c) * scale in
  let r' := Rmax (minDistance c) (Rmin (maxDistance c) r) in
  let sp := mkSpherical r' (phi (spherical c)) (theta (spherical c)) in
  let s' := set_controls (set_spherical sp c) s in
  if cameraFollowMode s' then s' else updateCameraFromControls s'.

(** [onTouchStart(event)], given the client coordinates of
    [event.touches]. *)
Definition onTouchStart (touches : list (R * R)) (s : SolarSystem) : SolarSystem :=
  match touches with
  | [(x, y)] => set_controls (set_mouse true x y (controls s)) s
  | _ => s
  end.

(** [onTouchMove(event)] *)
Definition onTouchMove (touches : list (R * R)) (s : SolarSystem) : SolarSystem :=
  match touches with
  | [(x, y)] => if isMouseDown (controls s) then drag x y s else s
  | _ => s
  end.

(** The two [touchend] listeners, in the order they were added:
    [onTouchEnd], then the tap handler, which tests the hit when exactly
    one touch ended and the pointer is no longer held. *)
Definition onTouchEndEvent (changedTouches : nat) (intersects : option Hit)
  (s : SolarSystem) : SolarSystem :=
  let s1 := onMouseUp s in
  if (Nat.eqb changedTouches 1 && negb (isMouseDown (controls s1)))%bool
  then checkPlanetClick intersects s1
  else s1.

(** [onWindowResize]: of the modelled fields only the star field is
    touched; it is removed and created again when there is one. *)
Definition onWindowResize (s : SolarSystem) : SolarSystem :=
  match stars s with
  | Some _ => createStarField s
  | None => s
  end.

(** ** The frame *)

Definition set_time (elapsedTime : R) (m : Material) : Material :=
  match m with
  | ShaderMaterial _ => ShaderMaterial elapsedTime
  | MeshPhongMaterial => MeshPhongMaterial
  end.

(** The body of [this.planets.forEach] in [animate]. *)
Definition updatePlanet (elapsedTime multiplier : R) (planet : Planet) : Planet :=
  let material' := set_time elapsedTime (material planet) in
  let angle' := angle planet + speed planet * multiplier in
  let m := mesh planet in
  let position' :=
    mkVector3 (cos angle' * orbitRadius planet) (vy (position m))
              (sin angle' * orbitRadius planet) in
  let mesh' := mkMesh (mesh_name m) (geometry_radius m) position'
                      (rotation_y m + rotationSpeed planet) in
  mkPlanet (name planet) mesh' (orbitRadius planet) angle' (speed planet)
           (baseSpeed planet) (rotationSpeed planet) (color planet) material'.

Definition updateSun (elapsedTime : R) (sn : Sun) : Sun :=
  mkSun (sun_rotation_y sn + 5/1000) elapsedTime.

(** The block guarded by [if (!this.isPaused)]. *)
Definition advance (elapsedTime : R) (s : SolarSystem) : SolarSystem :=
  let s1 := set_sun (option_map (updateSun elapsedTime) (sun s)) s in
  let s2 := set_planets (map (updatePlanet elapsedTime (globalSpeedMultiplier s1))) s1 in
  set_stars (option_map (fun r => r + 2/10000) (stars s2)) s2.

(** The point the follow code steers the camera to: the position of the
    planet plus the offset [(0.8 d, 0.5 d, d)], [d] five radii, turned
    about the vertical axis by the orbital angle. *)
Definition cameraOffset (planet : Planet) : Vector3 :=
  let distance := geometry_radius (mesh planet) * 5 in
  applyRotationY (angle planet)
    (mkVector3 (distance * (8/10)) (distance * (5/10)) distance).

Definition targetCameraPosition (planet : Planet) : Vector3 :=
  add (position (mesh planet)) (cameraOffset planet).

(** The block guarded by
    [if (this.cameraFollowMode && this.currentFocusedPlanet)]. *)
Definition follow (s : SolarSystem) : SolarSystem :=
  if cameraFollowMode s then
    match currentFocusedPlanet s with
    | Some i =>
        match nth_error (planets s) i with
        | Some planet =>
            set_camera
              (mkCamera (lerp (cam_position (camera s))
                              (targetCameraPosition planet) (5/100))
                        (position (mesh planet))) s
        | None => s
        end
    | None => s
    end
  else s.

(** [animate], given the reading of [clock.getElapsedTime()]. *)
Definition animate (elapsedTime : R) (s : SolarSystem) : SolarSystem :=
  follow (if isPaused s then s else advance elapsedTime s).

(** Frames in a row, one per clock reading. *)
Definition frames (clock : list R) (s : SolarSystem) : SolarSystem :=
  fold_left (fun st t => animate t st) clock s.

(** ** The tween engine *)

(** The point an [onUpdate] callback turns the camera to: the fixed
    point, or the position the mesh of the planet has when the callback
    runs. *)
Definition lookedAt (look : LookTarget) (s : SolarSystem) : Vector3 :=
  match look with
  | LookPoint p => p
  | LookPlanet i =>
      match nth_error (planets s) i with
      | Some planet => position (mesh planet)
      | None => cam_lookAt (camera s)
      end
  end.

(** One tick of the tween engine while the transition requested last is
    in flight: it writes a point [point] on the way into
    [camera.position] and runs [onUpdate].  Without a transition in
    flight the engine writes nothing. *)
Definition tweenUpdate (point : Vector3) (s : SolarSystem) : SolarSystem :=
  match tween s with
  | Some tw => set_camera (mkCamera point (lookedAt (tw_look tw) s)) s
  | None => s
  end.

(** The last tick of the transition requested last, two seconds after
    the request: the engine writes the end point, runs [onUpdate] and
    drops the transition.  Transitions requested earlier have ended
    before, as all last two seconds. *)
Definition tweenComplete (s : SolarSystem) : SolarSystem :=
  match tween s with
  | Some tw =>
      set_tween None
        (set_camera (mkCamera (tw_to tw) (lookedAt (tw_look tw) s)) s)
  | None => s
  end.

(** ** Events *)

Inductive Event : Type :=
| Frame (elapsedTime : R)
| MouseDown (clientX clientY : R)
| MouseMove (clientX clientY : R)
| MouseUp
| Wheel (deltaY : R)
| Click (intersects : option Hit)
| TouchStart (touches : list (R * R))
| TouchMove (touches : list (R * R))
| TouchEnd (changedTouches : nat) (intersects : option Hit)
| Resize
| SliderInput (index : nat) (multiplier : R)
| PauseClick
| ResetClick
| CloseInfoClick
| TweenUpdate (point : Vector3)
| TweenComplete.

Definition handle (e : Event) (s : SolarSystem) : SolarSystem :=
  match e with
  | Frame t => animate t s
  | MouseDown x y => onMouseDown x y s
  | MouseMove x y => onMouseMove x y s
  | MouseUp => onMouseUp s
  | Wheel d => onMouseWheel d s
  | Click h => checkPlanetClick h s
  | TouchStart ts => onTouchStart ts s
  | TouchMove ts => onTouchMove ts s
  | TouchEnd n h => onTouchEndEvent n h s
  | Resize => onWindowResize s
  | SliderInput i m => sliderInput i m s
  | PauseClick => pauseClick s
  | ResetClick => resetClick s
  | CloseInfoClick => closeInfoClick s
  | TweenUpdate point => tweenUpdate point s
  | TweenComplete => tweenComplete s
  end.

(** The states the page can be in once [init] has returned: [init] ends
    with a first call of [animate], and from then on frames, listeners
    and ticks of the tween engine run one at a time. *)
Inductive Reachable : SolarSystem -> Prop :=
| reach_init : forall t, Reachable (animate t boot)
| reach_step : forall e s, Reachable s -> Reachable (handle e s).

(** ** The setter of the registry *)

Fixpoint findIndexFrom (n : string) (l : list Planet) (i : nat) : option nat :=
  match l with
  | [] => None
  | p :: l' => if String.eqb (name p) n then Some i else findIndexFrom n l' (S i)
  end.

(** Modelled from the spec: the operation [setSpeedMultiplier(name, value)]
    of the registry, which the scripts do not define.  The scripts only
    attach one slider listener per planet ([sliderInput] above); the
    setter is taken to look the name up in [this.planets] and to run the
    listener of the planet found, and to do nothing when there is none. *)
Definition setSpeedMultiplier (n : string) (value : R) (s : SolarSystem)
  : SolarSystem :=
  match findIndexFrom n (planets s) 0 with
  | Some i => sliderInput i value s
  | None => s
  end.

(** ** Statements about states *)

(** The position of a planet is the point of its orbit at its angle. *)
Definition onOrbit (p : Planet) : Prop :=
  position (mesh p) =
  mkVector3 (cos (angle p) * orbitRadius p) 0 (sin (angle p) * orbitRadius p).

(** A focus is active: the overlay is shown or a planet is referenced. *)
Definition focusActive (s : SolarSystem) : Prop :=
  active (planetInfo s) = true \/ currentFocusedPlanet s <> None.

(** The focus reference is set exactly when the overlay is shown. *)
Definition focusMatchesOverlay (s : SolarSystem) : Prop :=
  currentFocusedPlanet s <> None <-> active (planetInfo s) = true.

(** Squared distance from the camera to the mesh of a planet. *)
Definition cameraToBodySq (s : SolarSystem) (p : Planet) : R :=
  distanceToSquared (cam_position (camera s)) (position (mesh p)).

(** Squared distance from the camera to the point the follow code steers
    it to. *)
Definition cameraToTargetSq (s : SolarSystem) (p : Planet) : R :=
  distanceToSquared (cam_position (camera s)) (targetCameraPosition p).

(** The camera-to-body distance of the frames that follow [s] moves
    toward the length of the offset without passing it: from above it
    decreases and stays above, from below it increases and stays below.
    [a] is the state after any number of frames, [b] the state one frame
    later; distances are compared through their squares. *)
Definition approachesOffsetMonotonically (s : SolarSystem) (i : nat) : Prop :=
  forall p, nth_error (planets s) i = Some p ->
  forall (clock : list R) (t : R) pa pb,
    let a := frames clock s in
    let b := animate t a in
    nth_error (planets a) i = Some pa ->
    nth_error (planets b) i = Some pb ->
    (lengthSq (cameraOffset p) <= cameraToBodySq s p ->
       lengthSq (cameraOffset pb) <= cameraToBodySq b pb
       /\ cameraToBodySq b pb <= cameraToBodySq a pa)
    /\ (cameraToBodySq s p <= lengthSq (cameraOffset p) ->
       cameraToBodySq b pb <= lengthSq (cameraOffset pb)
       /\ cameraToBodySq a pa <= cameraToBodySq b pb).

(** ** States used as examples *)

Definition firstFrame : SolarSystem := animate 0 boot.

(** Earth is clicked and the button is pressed at (0, 0). *)
Definition earthFocusedHeld : SolarSystem :=
  onMouseDown 0 0 (checkPlanetClick (Some (HitMesh 2)) firstFrame).

(** The Sun is clicked. *)
Definition sunSelected : SolarSystem :=
  checkPlanetClick (Some HitSun) firstFrame.

(** The Sun is clicked and the button is pressed at (0, 0). *)
Definition sunFocusedHeld : SolarSystem := onMouseDown 0 0 sunSelected.

(** The simulation is paused and Jupiter is clicked. *)
Definition jupiterFollowedPaused : SolarSystem :=
  checkPlanetClick (Some (HitMesh 4)) (pauseClick firstFrame).

(** The planets that [forEach] pushes for a list of descriptors, the
    first one at index [i]. *)
Fixpoint newPlanetsFrom (i : nat) (l : list PlanetData) : list Planet :=
  match l with
  | [] => []
  | d :: l' => newPlanet d i :: newPlanetsFrom (S i) l'
  end.

(** On its orbit, at a positive radius. *)
Definition orbiting (p : Planet) : Prop := onOrbit p /\ 0 < orbitRadius p.

(** As [createPlanet] leaves it: on the x axis, at a positive radius. *)
Definition created (p : Planet) : Prop :=
  position (mesh p) = mkVector3 (orbitRadius p) 0 0 /\ 0 < orbitRadius p.

(** Clicks on the scene in a row, one per result of the ray test. *)
Definition selections (hits : list (option Hit)) (s : SolarSystem) : SolarSystem :=
  fold_left (fun st h => checkPlanetClick h st) hits s.

(** How the focus fields and the overlay agree: a referenced planet goes
    with the follow mode and with an overlay that shows that planet; no
    reference goes with the follow mode off, and then a shown overlay is
    the one of the Sun. *)
Definition focusConsistent (s : SolarSystem) : Prop :=
  match currentFocusedPlanet s with
  | Some i =>
      cameraFollowMode s = true
      /\ active (planetInfo s) = true
      /\ exists p, nth_error (planets s) i = Some p
                   /\ shownName (planetInfo s) = name p
  | None =>
      cameraFollowMode s = false
      /\ (active (planetInfo s) = true -> shownName (planetInfo s) = "Sun")
  end.

(** The events that leave the focus fields and the overlay alone. *)
Definition keepsFocus (e : Event) : bool :=
  match e with
  | Click _ | TouchEnd _ _ | ResetClick | CloseInfoClick => false
  | _ => true
  end.

(** Jupiter as the first frame leaves it. *)
Definition jupiterAfterFirstFrame : Planet :=
  updatePlanet 0 1
    (newPlanet (mkPlanetData "Jupiter" (55/10) 14207645%N 28 (1/1000) (2/100)) 4).

(** ** Scene objects built once *)

(** The point pushed by turn [i] of the loop of [createOrbitLine(radius)],
    which has 64 segments. *)
Definition orbitLinePoint (radius : R) (i : nat) : Vector3 :=
  let angle := (INR i / 64) * PI * 2 in
  mkVector3 (cos angle * radius) 0 (sin angle * radius).

(** The points of [createOrbitLine(radius)]: [i] runs from 0 to 64
    included. *)
Definition createOrbitLine (radius : R) : list Vector3 :=
  map (orbitLinePoint radius) (seq 0 65).

(** [starCount] of [createStarField], from [window.innerWidth]. *)
Definition starCount (innerWidth : R) : nat :=
  if Rlt_dec innerWidth 768 then 1000%nat else 2000%nat.

(** One turn of the loop of [createStarField], given the results of its
    three calls of [Math.random], in the order they are made. *)
Definition starPosition (r1 r2 r3 : R) : Vector3 :=
  let radius := 500 + r1 * 500 in
  let theta := r2 * PI * 2 in
  let phi := acos (2 * r3 - 1) in
  mkVector3 (radius * sin phi * cos theta)
            (radius * sin phi * sin theta)
            (radius * cos phi).

(** The positions written by [createStarField] for [count] stars, where
    [random k] is the result of call number [k] of [Math.random], the
    first call of the loop being number [call]. *)
Fixpoint starPositions (count : nat) (random : nat -> R) (call : nat)
  : list Vector3 :=
  match count with
  | O => []
  | S n =>
      starPosition (random call) (random (S call)) (random (S (S call)))
      :: starPositions n random (call + 3)
  end.

(** ** Sequences of pointer events *)

(** The same wheel event [n] times. *)
Definition wheels (n : nat) (deltaY : R) (s : SolarSystem) : SolarSystem :=
  Nat.iter n (onMouseWheel deltaY) s.

(** Pointer moves in a row, one per pair of client coordinates. *)
Definition mouseMoves (path : list (R * R)) (s : SolarSystem) : SolarSystem :=
  fold_left (fun st xy => onMouseMove (fst xy) (snd xy) st) path s.

(** ** Further statements about states *)

(** The orbit controls are as [setupControls] authored them and within
    their bounds. *)
Definition controlsInRange (s : SolarSystem) : Prop :=
  minDistance (controls s) = 10
  /\ maxDistance (controls s) = 200
  /\ c_rotationSpeed (controls s) = 5/1000
  /\ target (controls s) = origin
  /\ 10 <= radius (spherical (controls s)) <= 200
  /\ 1/10 <= phi (spherical (controls s)) <= PI - 1/10.

(** The fields of a planet that come from its descriptor. *)
Definition descriptorOf (p : Planet) : PlanetData :=
  mkPlanetData (name p) (geometry_radius (mesh p)) (color p) (orbitRadius p)
               (baseSpeed p) (rotationSpeed p).

(** The events that hide the overlay. *)
Definition hidesOverlay (e : Event) : bool :=
  match e with
  | ResetClick | CloseInfoClick => true
  | _ => false
  end.
(** ** The panels *)

Module Panel.

(** The text of the mobile toggle button and of the collapse button. *)
Inductive Glyph : Type := Gear | Cross.
Inductive Sign : Type := Plus | Minus.

(** The floating button made by [createMobileToggleButton]: its text and
    whether its [display] is [flex] rather than [none]. *)
Record MobileToggle : Type := mkMobileToggle {
  glyph : Glyph;
  displayed : bool
}.

(** The classes of [controls-panel] that the listeners test or change,
    the text of [toggle-panel], and the mobile button when it was made. *)
Record Panels : Type := mkPanels {
  collapsed : bool;
  mobileHidden : bool;
  visibleClass : bool;
  toggleText : Sign;
  mobileToggle : option MobileToggle
}.

(** [createMobileToggleButton], run at window width [innerWidth]. *)
Definition createMobileToggleButton (innerWidth : R) (p : Panels) : Panels :=
  let button := mkMobileToggle Gear true in
  let button' :=
    if Rlt_dec 768 innerWidth then mkMobileToggle (glyph button) false
    else button in
  mkPanels (collapsed p) (mobileHidden p) (visibleClass p) (toggleText p)
           (Some button').

(** The part of [setupControlPanels] that runs at once, on the panel as
    the page declares it: not collapsed, no mobile class, text [Minus]. *)
Definition setupControlPanels (innerWidth : R) : Panels :=
  let p := mkPanels false false false Minus None in
  if Rle_dec innerWidth 768
  then createMobileToggleButton innerWidth
         (mkPanels (collapsed p) true (visibleClass p) (toggleText p)
                   (mobileToggle p))
  else p.

(** The [click] listener of [toggle-panel]. *)
Definition togglePanelClick (p : Panels) : Panels :=
  if collapsed p
  then mkPanels false (mobileHidden p) (visibleClass p) Minus (mobileToggle p)
  else mkPanels true (mobileHidden p) (visibleClass p) Plus (mobileToggle p).

(** The [click] listener of the mobile button; there is none when the
    button was not made. *)
Definition mobileToggleClick (p : Panels) : Panels :=
  match mobileToggle p with
  | None => p
  | Some b =>
      if mobileHidden p
      then mkPanels (collapsed p) false true (toggleText p)
                    (Some (mkMobileToggle Cross (displayed b)))
      else mkPanels (collapsed p) true false (toggleText p)
                    (Some (mkMobileToggle Gear (displayed b)))
  end.

(** The [resize] listener added by [createMobileToggleButton]. *)
Definition mobileResize (innerWidth : R) (p : Panels) : Panels :=
  match mobileToggle p with
  | None => p
  | Some b =>
      if Rle_dec innerWidth 768 then
        if negb (mobileHidden p)
        then mkPanels (collapsed p) true (visibleClass p) (toggleText p)
                      (Some (mkMobileToggle Gear true))
        else mkPanels (collapsed p) (mobileHidden p) (visibleClass p)
                      (toggleText p) (Some (mkMobileToggle (glyph b) true))
      else mkPanels (collapsed p) false false (toggleText p)
                    (Some (mkMobileToggle (glyph b) false))
  end.

Inductive PanelEvent : Type :=
| TogglePanelClick
| MobileToggleClick
| WindowResize (innerWidth : R).

Definition handlePanel (e : PanelEvent) (p : Panels) : Panels :=
  match e with
  | TogglePanelClick => togglePanelClick p
  | MobileToggleClick => mobileToggleClick p
  | WindowResize w => mobileResize w p
  end.

(** The panel states that follow a setup at some window width. *)
Inductive PanelReachable : Panels -> Prop :=
| panel_setup : forall w, PanelReachable (setupControlPanels w)
| panel_step : forall e p, PanelReachable p -> PanelReachable (handlePanel e p).

(** The texts agree with the classes: [Plus] exactly on a collapsed
    panel, and on a displayed mobile button [Gear] exactly on a panel
    with the class [mobile-hidden]. *)
Definition textsAgree (p : Panels) : Prop :=
  (toggleText p = Plus <-> collapsed p = true)
  /\ (forall b, mobileToggle p = Some b -> displayed b = true ->
        (glyph b = Gear <-> mobileHidden p = true)).

End Panel.

(** The material of a planet is the one it was created with, a shader
    material carrying the clock reading [t]: Saturn has the Phong
    material, which has no uniforms, and every other planet a shader
    material whose [time] is [t]. *)
Definition materialAt (t : R) (p : Planet) : Prop :=
  (name p = "Saturn" /\ material p = MeshPhongMaterial)
  \/ (name p <> "Saturn" /\ material p = ShaderMaterial t).

(** All shader materials and the Sun carry the clock reading [t]. *)
Definition uniformsAt (t : R) (s : SolarSystem) : Prop :=
  Forall (materialAt t) (planets s)
  /\ exists sn, sun s = Some sn /\ sun_time sn = t.

(** What the listeners keep: the collapse text follows the class, a
    hidden panel goes with [Gear], and on a displayed button [Gear] goes
    with a hidden panel. *)
Definition panelInvariant (p : Panel.Panels) : Prop :=
  (Panel.toggleText p = Panel.Plus <-> Panel.collapsed p = true)
  /\ (forall b, Panel.mobileToggle p = Some b ->
        (Panel.mobileHidden p = true -> Panel.glyph b = Panel.Gear)
        /\ (Panel.displayed b = true -> Panel.glyph b = Panel.Gear ->
            Panel.mobileHidden p = true)).

(** The simulation is paused just after the first frame. *)
Definition pausedAfterFirstFrame : SolarSystem := pauseClick firstFrame.

(** The [time] uniform of every shader planet goes on from its frozen
    value when the paused simulation [s] resumes: if it is [u] during the
    pause, [tl] is the clock reading of the last paused frame and [t] the
    reading of the first frame after the click on the pause button, it
    is [u] plus the time [t - tl] of that one frame afterwards. *)
Definition uniformsResumeFromFrozen (s : SolarSystem) : Prop :=
  forall (clock : list R) (tl t : R) (i : nat) (p : Planet) (u : R),
    nth_error (planets s) i = Some p ->
    material p = ShaderMaterial u ->
    exists p',
      nth_error
        (planets (animate t (pauseClick (frames (clock ++ [tl]) s)))) i
      = Some p'
      /\ material p' = ShaderMaterial (u + (t - tl)).

(** The simulation is paused, Jupiter is clicked, and the transition
    that the click asked for has ended. *)
Definition jupiterFollowedSettled : SolarSystem :=
  tweenComplete jupiterFollowedPaused.

(** The Sun is clicked and the transition it starts has ended. *)
Definition sunSettled : SolarSystem := tweenComplete sunSelected.

(** ** Properties *)

(** *** The registry *)

Lemma planets_forEachFrom :
  forall (l : list PlanetData) (i : nat) (s : SolarSystem),
    planets (forEachFrom createPlanet l i s) = planets s ++ newPlanetsFrom i l.
Proof.
  induction l as [|d l IH]; intros i s; simpl.
  - now rewrite app_nil_r.
  - rewrite IH. simpl. now rewrite <- app_assoc.
Qed.

Lemma nth_error_newPlanetsFrom :
  forall (l : list PlanetData) (i k : nat),
    nth_error (newPlanetsFrom i l) k =
    option_map (fun d => newPlanet d (i + k)) (nth_error l k).
Proof.
  induction l as [|d l IH]; intros i k.
  - now destruct k.
  - destruct k as [|k]; simpl.
    + now rewrite Nat.add_0_r.
    + rewrite IH. now rewrite Nat.add_succ_r.
Qed.

Lemma planets_createSolarSystemWith :
  forall (data : list PlanetData) (s : SolarSystem),
    planets (createSolarSystemWith data s) = planets s ++ newPlanetsFrom 0 data.
Proof.
  intros data s. unfold createSolarSystemWith.
  now rewrite planets_forEachFrom.
Qed.

(** C5. Whatever the list of descriptors, starting from an empty registry,
    the planet created at index [i] is the one of descriptor [i] and its
    orbital angle starts at [(i * 2 PI) / 8]: the divisor is 8 for every
    length of the list. *)
Theorem createPlanet_initial_angle :
  forall (data : list PlanetData) (s : SolarSystem) (i : nat) (d : PlanetData),
    planets s = [] ->
    nth_error data i = Some d ->
    exists p,
      nth_error (planets (createSolarSystemWith data s)) i = Some p
      /\ name p = d_name d
      /\ angle p = (INR i * PI * 2) / 8.
Proof.
  intros data s i d Hs Hd.
  rewrite planets_createSolarSystemWith, Hs. simpl.
  rewrite nth_error_newPlanetsFrom, Hd. simpl.
  eexists. split; [reflexivity|]. split; reflexivity.
Qed.

Lemma createPlanet_initial_angle_witness :
  exists p,
    nth_error (planets (createSolarSystemWith planetData constructor)) 3 = Some p
    /\ name p = "Mars"
    /\ angle p = (INR 3 * PI * 2) / 8.
Proof.
  exact (createPlanet_initial_angle planetData constructor 3
           (mkPlanetData "Mars" (16/10) 12665870%N 20 (5/1000) (9/1000))
           eq_refl eq_refl).
Defined.

(** *** Lists updated in place *)

Lemma nth_error_updateAt_same :
  forall (A : Type) (f : A -> A) (l : list A) (i : nat),
    nth_error (updateAt i f l) i = option_map f (nth_error l i).
Proof.
  intros A f. induction l as [|a l IH]; intros [|i]; simpl; auto.
Qed.

Lemma nth_error_updateAt_other :
  forall (A : Type) (f : A -> A) (l : list A) (i j : nat),
    i <> j -> nth_error (updateAt i f l) j = nth_error l j.
Proof.
  intros A f. induction l as [|a l IH]; intros [|i] [|j] H; simpl;
    try reflexivity; try (now elim H).
  apply IH. lia.
Qed.

Lemma updateAt_out_of_range :
  forall (A : Type) (f : A -> A) (l : list A) (i : nat),
    (List.length l <= i)%nat -> updateAt i f l = l.
Proof.
  intros A f. induction l as [|a l IH]; intros [|i] H; simpl in *; auto.
  - lia.
  - f_equal. apply IH. lia.
Qed.

(** *** What a frame reads and writes *)

Lemma planets_follow : forall s, planets (follow s) = planets s.
Proof.
  intros s. unfold follow.
  destruct (cameraFollowMode s); [|reflexivity].
  destruct (currentFocusedPlanet s) as [i|]; [|reflexivity].
  destruct (nth_error (planets s) i); reflexivity.
Qed.

Lemma follow_keeps :
  forall s,
    isPaused (follow s) = isPaused s
    /\ globalSpeedMultiplier (follow s) = globalSpeedMultiplier s
    /\ sun (follow s) = sun s
    /\ stars (follow s) = stars s
    /\ controls (follow s) = controls s
    /\ currentFocusedPlanet (follow s) = currentFocusedPlanet s
    /\ cameraFollowMode (follow s) = cameraFollowMode s
    /\ planetInfo (follow s) = planetInfo s
    /\ tween (follow s) = tween s.
Proof.
  intros s. unfold follow.
  destruct (cameraFollowMode s) eqn:F; [|now rewrite F].
  destruct (currentFocusedPlanet s) as [i|] eqn:C; [|now rewrite F, C].
  destruct (nth_error (planets s) i); simpl; now rewrite ?F, ?C.
Qed.

Lemma planets_animate_running :
  forall t s,
    isPaused s = false ->
    planets (animate t s) =
    map (updatePlanet t (globalSpeedMultiplier s)) (planets s).
Proof.
  intros t s H. unfold animate. rewrite H, planets_follow. reflexivity.
Qed.

Lemma planets_animate_paused :
  forall t s, isPaused s = true -> planets (animate t s) = planets s.
Proof.
  intros t s H. unfold animate. rewrite H. apply planets_follow.
Qed.

Lemma animate_keeps :
  forall t s,
    isPaused (animate t s) = isPaused s
    /\ globalSpeedMultiplier (animate t s) = globalSpeedMultiplier s
    /\ controls (animate t s) = controls s
    /\ currentFocusedPlanet (animate t s) = currentFocusedPlanet s
    /\ cameraFollowMode (animate t s) = cameraFollowMode s
    /\ planetInfo (animate t s) = planetInfo s
    /\ tween (animate t s) = tween s.
Proof.
  intros t s. unfold animate.
  destruct (follow_keeps (if isPaused s then s else advance t s))
    as (P & G & _ & _ & C & F & M & I & T).
  rewrite P, G, C, F, M, I, T.
  destruct (isPaused s) eqn:E; simpl; rewrite ?E; repeat split; reflexivity.
Qed.

Lemma frames_cons :
  forall t clock s, frames (t :: clock) s = frames clock (animate t s).
Proof. reflexivity. Qed.

Lemma frames_snoc :
  forall clock t s, frames (clock ++ [t]) s = animate t (frames clock s).
Proof.
  intros clock t s. unfold frames. now rewrite fold_left_app.
Qed.

Lemma frames_keeps :
  forall clock s,
    isPaused (frames clock s) = isPaused s
    /\ globalSpeedMultiplier (frames clock s) = globalSpeedMultiplier s
    /\ controls (frames clock s) = controls s
    /\ currentFocusedPlanet (frames clock s) = currentFocusedPlanet s
    /\ cameraFollowMode (frames clock s) = cameraFollowMode s
    /\ planetInfo (frames clock s) = planetInfo s
    /\ tween (frames clock s) = tween s.
Proof.
  induction clock as [|t clock IH]; intros s.
  - repeat split; reflexivity.
  - rewrite frames_cons.
    destruct (IH (animate t s)) as (P & G & C & F & M & I & T).
    destruct (animate_keeps t s) as (P' & G' & C' & F' & M' & I' & T').
    rewrite P, G, C, F, M, I, T, P', G', C', F', M', I', T'.
    repeat split; reflexivity.
Qed.

(** *** Orbital advance *)

Lemma frames_running_nth :
  forall clock s i p,
    isPaused s = false ->
    nth_error (planets s) i = Some p ->
    exists p',
      nth_error (planets (frames clock s)) i = Some p'
      /\ angle p' =
         angle p + INR (List.length clock) * (speed p * globalSpeedMultiplier s)
      /\ speed p' = speed p
      /\ baseSpeed p' = baseSpeed p.
Proof.
  induction clock as [|t clock IH]; intros s i p Hrun Hp.
  - exists p. simpl. repeat split; auto; lra.
  - rewrite frames_cons.
    destruct (animate_keeps t s) as (P & G & _).
    destruct (IH (animate t s) i (updatePlanet t (globalSpeedMultiplier s) p))
      as (p' & Hn & Ha & Hs & Hb).
    + now rewrite P.
    + rewrite (planets_animate_running t s Hrun), nth_error_map, Hp.
      reflexivity.
    + exists p'. split; [exact Hn|].
      rewrite Ha, Hs, Hb, G.
      change (List.length (t :: clock)) with (S (List.length clock)).
      rewrite S_INR. simpl. repeat split; auto; lra.
Qed.

(** C1. Once the slider of the planet at index [i] has been set to the
    multiplier [m], any number of frames of the running simulation leave
    that planet at its starting angle plus
    [n * baseSpeed * m * globalSpeedMultiplier], [n] the number of frames;
    the slider acts by writing [baseSpeed * m] into [speed]. *)
Theorem orbital_angle_after_frames :
  forall (s : SolarSystem) (i : nat) (p : Planet) (m : R) (clock : list R),
    isPaused s = false ->
    nth_error (planets s) i = Some p ->
    exists p0 p',
      nth_error (planets (sliderInput i m s)) i = Some p0
      /\ speed p0 = baseSpeed p * m
      /\ angle p0 = angle p
      /\ nth_error (planets (frames clock (sliderInput i m s))) i = Some p'
      /\ angle p' =
         angle p
         + INR (List.length clock) * baseSpeed p * m * globalSpeedMultiplier s.
Proof.
  intros s i p m clock Hrun Hp.
  set (p0 := set_speed (baseSpeed p * m) p).
  assert (H0 : nth_error (planets (sliderInput i m s)) i = Some p0).
  { unfold sliderInput. simpl. rewrite nth_error_updateAt_same, Hp.
    reflexivity. }
  destruct (frames_running_nth clock (sliderInput i m s) i p0 Hrun H0)
    as (p' & Hn & Ha & _).
  exists p0, p'. repeat split; auto.
  rewrite Ha. simpl. lra.
Qed.

Lemma orbital_angle_after_frames_witness :
  exists p0 p',
    nth_error (planets (sliderInput 2 2 boot)) 2 = Some p0
    /\ speed p0 = 8/1000 * 2
    /\ angle p0 = (INR 2 * PI * 2) / 8
    /\ nth_error (planets (frames [0; 1; 2] (sliderInput 2 2 boot))) 2 = Some p'
    /\ angle p' =
       (INR 2 * PI * 2) / 8 + INR 3 * (8/1000) * 2 * 1.
Proof.
  exact (orbital_angle_after_frames boot 2
           (newPlanet (mkPlanetData "Earth" 2 7050198%N 16 (8/1000) (1/100)) 2)
           2 [0; 1; 2] eq_refl eq_refl).
Defined.

(** *** Pausing *)

Lemma animate_paused_bodies :
  forall t s,
    isPaused s = true ->
    planets (animate t s) = planets s
    /\ sun (animate t s) = sun s
    /\ stars (animate t s) = stars s.
Proof.
  intros t s H. unfold animate. rewrite H.
  destruct (follow_keeps s) as (_ & _ & Sn & St & _).
  now rewrite planets_follow, Sn, St.
Qed.

Lemma frames_paused_bodies :
  forall clock s,
    isPaused s = true ->
    planets (frames clock s) = planets s
    /\ sun (frames clock s) = sun s
    /\ stars (frames clock s) = stars s.
Proof.
  induction clock as [|t clock IH]; intros s H.
  - repeat split; reflexivity.
  - rewrite frames_cons.
    destruct (animate_keeps t s) as (P & _).
    destruct (IH (animate t s)) as (A & B & C); [now rewrite P|].
    destruct (animate_paused_bodies t s H) as (A' & B' & C').
    now rewrite A, B, C, A', B', C'.
Qed.

Lemma animate_running_bodies :
  forall t s,
    isPaused s = false ->
    planets (animate t s) =
      map (updatePlanet t (globalSpeedMultiplier s)) (planets s)
    /\ sun (animate t s) = option_map (updateSun t) (sun s)
    /\ stars (animate t s) = option_map (fun r => r + 2/10000) (stars s).
Proof.
  intros t s H. split; [now apply planets_animate_running|].
  unfold animate. rewrite H.
  destruct (follow_keeps (advance t s)) as (_ & _ & Sn & St & _).
  now rewrite Sn, St.
Qed.

(** The first frame after a pause, in terms of the update of a frame. *)
Lemma resumed_frame_bodies :
  forall (s : SolarSystem) (clock : list R) (t : R),
    isPaused s = true ->
    isPaused (animate t (pauseClick (frames clock s))) = false
    /\ planets (animate t (pauseClick (frames clock s))) =
         map (updatePlanet t (globalSpeedMultiplier s)) (planets s)
    /\ sun (animate t (pauseClick (frames clock s))) =
         option_map (updateSun t) (sun s)
    /\ stars (animate t (pauseClick (frames clock s))) =
         option_map (fun r => r + 2/10000) (stars s).
Proof.
  intros s clock t H.
  destruct (frames_keeps clock s) as (P & G & _).
  destruct (frames_paused_bodies clock s H) as (A & B & C).
  assert (Hrun : isPaused (pauseClick (frames clock s)) = false).
  { unfold pauseClick. simpl. now rewrite P, H. }
  destruct (animate_keeps t (pauseClick (frames clock s))) as (P' & _).
  destruct (animate_running_bodies t _ Hrun) as (A' & B' & C').
  rewrite P', Hrun, A', B', C'. unfold pauseClick. simpl.
  now rewrite A, B, C, G.
Qed.

(** C3 (as amended). A frame of the paused simulation leaves every
    planet object as it was (angle, mesh position, mesh rotation, [time]
    uniform), and the Sun and the star field too.  After any number of
    paused frames, the first frame that follows the click on the pause
    button advances every body once from the frozen values: the angle of
    a planet grows by [speed * globalSpeedMultiplier], its mesh is put at
    that angle on its orbit, its spin grows by [rotationSpeed], the spin
    of the Sun by 0.005 and the rotation of the star field by 0.0002.
    The [time] uniforms do not go on from their frozen value: those of
    the shader materials and of the Sun are set to the clock reading of
    that frame, and a material without uniforms stays without. *)
Theorem paused_frames_freeze_then_resume :
  forall (s : SolarSystem),
    isPaused s = true ->
    (forall t,
        planets (animate t s) = planets s
        /\ sun (animate t s) = sun s
        /\ stars (animate t s) = stars s)
    /\ (forall clock t,
           let resumed := animate t (pauseClick (frames clock s)) in
           isPaused resumed = false
           /\ (forall i p,
                 nth_error (planets s) i = Some p ->
                 exists p',
                   nth_error (planets resumed) i = Some p'
                   /\ angle p' = angle p + speed p * globalSpeedMultiplier s
                   /\ position (mesh p') =
                      mkVector3 (cos (angle p') * orbitRadius p)
                                (vy (position (mesh p)))
                                (sin (angle p') * orbitRadius p)
                   /\ rotation_y (mesh p') =
                      rotation_y (mesh p) + rotationSpeed p
                   /\ speed p' = speed p
                   /\ (forall u, material p = ShaderMaterial u ->
                                 material p' = ShaderMaterial t)
                   /\ (material p = MeshPhongMaterial ->
                       material p' = MeshPhongMaterial))
           /\ (forall sn, sun s = Some sn ->
                 sun resumed = Some (mkSun (sun_rotation_y sn + 5/1000) t))
           /\ (forall r, stars s = Some r ->
                 stars resumed = Some (r + 2/10000))).
Proof.
  intros s H. split.
  - intros t. now apply animate_paused_bodies.
  - intros clock t resumed. subst resumed.
    destruct (resumed_frame_bodies s clock t H) as (P & A & B & C).
    split; [exact P|]. split; [|split].
    + intros i p Hp. rewrite A, nth_error_map, Hp. simpl.
      eexists. split; [reflexivity|]. simpl.
      repeat split; try reflexivity.
      * intros u Hu. now rewrite Hu.
      * intros Hu. now rewrite Hu.
    + intros sn Hs. rewrite B, Hs. reflexivity.
    + intros r Hr. rewrite C, Hr. reflexivity.
Qed.

Lemma paused_frames_freeze_then_resume_witness :
  (forall t,
      planets (animate t pausedAfterFirstFrame) = planets pausedAfterFirstFrame
      /\ sun (animate t pausedAfterFirstFrame) = sun pausedAfterFirstFrame
      /\ stars (animate t pausedAfterFirstFrame) = stars pausedAfterFirstFrame)
  /\ (forall clock t,
         let resumed :=
           animate t (pauseClick (frames clock pausedAfterFirstFrame)) in
         isPaused resumed = false
         /\ (forall i p,
               nth_error (planets pausedAfterFirstFrame) i = Some p ->
               exists p',
                 nth_error (planets resumed) i = Some p'
                 /\ angle p' =
                    angle p
                    + speed p * globalSpeedMultiplier pausedAfterFirstFrame
                 /\ position (mesh p') =
                    mkVector3 (cos (angle p') * orbitRadius p)
                              (vy (position (mesh p)))
                              (sin (angle p') * orbitRadius p)
                 /\ rotation_y (mesh p') =
                    rotation_y (mesh p) + rotationSpeed p
                 /\ speed p' = speed p
                 /\ (forall u, material p = ShaderMaterial u ->
                               material p' = ShaderMaterial t)
                 /\ (material p = MeshPhongMaterial ->
                     material p' = MeshPhongMaterial))
         /\ (forall sn, sun pausedAfterFirstFrame = Some sn ->
               sun resumed = Some (mkSun (sun_rotation_y sn + 5/1000) t))
         /\ (forall r, stars pausedAfterFirstFrame = Some r ->
               stars resumed = Some (r + 2/10000))).
Proof.
  exact (paused_frames_freeze_then_resume pausedAfterFirstFrame eq_refl).
Defined.

(** C3, the claim as written, fails for the [time] uniforms.  Pause
    after the first frame, whose clock reading 0 is then the frozen
    uniform of Mercury; let two paused frames pass, at the readings 3 and
    6; resume, and let the next frame come at the reading 9.  Going on
    from the frozen value, the uniform would be 3 after that frame; it is
    9, the reading of the clock, which has run through the pause. *)
Lemma uniform_jumps_on_resume :
  Reachable pausedAfterFirstFrame
  /\ isPaused pausedAfterFirstFrame = true
  /\ (exists p,
        nth_error (planets pausedAfterFirstFrame) 0 = Some p
        /\ material p = ShaderMaterial 0)
  /\ (exists p',
        nth_error
          (planets (animate 9 (pauseClick (frames [3; 6] pausedAfterFirstFrame))))
          0 = Some p'
        /\ material p' = ShaderMaterial 9)
  /\ ~ uniformsResumeFromFrozen pausedAfterFirstFrame.
Proof.
  split; [exact (reach_step PauseClick _ (reach_init 0))|].
  split; [reflexivity|].
  split; [eexists; split; reflexivity|].
  split; [eexists; split; reflexivity|].
  intros H.
  destruct (H [3] 6 9 0%nat _ 0 eq_refl eq_refl) as (p' & Hp' & Hm).
  simpl in Hp'. injection Hp' as <-. simpl in Hm.
  injection Hm as Hm. lra.
Qed.

(** *** What the listeners do to the registry *)

Lemma planets_checkPlanetClick :
  forall h s, planets (checkPlanetClick h s) = planets s.
Proof.
  intros [[|i|]|] s; simpl; try reflexivity.
  destruct (nth_error (planets s) i); reflexivity.
Qed.

Lemma planets_drag : forall x y s, planets (drag x y s) = planets s.
Proof.
  intros x y s. unfold drag. simpl.
  destruct (cameraFollowMode s); reflexivity.
Qed.

Lemma tweenUpdate_keeps :
  forall q s,
    isPaused (tweenUpdate q s) = isPaused s
    /\ planets (tweenUpdate q s) = planets s
    /\ sun (tweenUpdate q s) = sun s
    /\ stars (tweenUpdate q s) = stars s
    /\ controls (tweenUpdate q s) = controls s
    /\ currentFocusedPlanet (tweenUpdate q s) = currentFocusedPlanet s
    /\ cameraFollowMode (tweenUpdate q s) = cameraFollowMode s
    /\ planetInfo (tweenUpdate q s) = planetInfo s.
Proof.
  intros q s. unfold tweenUpdate.
  destruct (tween s); repeat split; reflexivity.
Qed.

Lemma tweenComplete_keeps :
  forall s,
    isPaused (tweenComplete s) = isPaused s
    /\ planets (tweenComplete s) = planets s
    /\ sun (tweenComplete s) = sun s
    /\ stars (tweenComplete s) = stars s
    /\ controls (tweenComplete s) = controls s
    /\ currentFocusedPlanet (tweenComplete s) = currentFocusedPlanet s
    /\ cameraFollowMode (tweenComplete s) = cameraFollowMode s
    /\ planetInfo (tweenComplete s) = planetInfo s.
Proof.
  intros s. unfold tweenComplete.
  destruct (tween s); repeat split; reflexivity.
Qed.

Lemma planets_handle_cases :
  forall e s,
    planets (handle e s) = planets s
    \/ (exists t, isPaused s = false /\
          planets (handle e s) =
          map (updatePlanet t (globalSpeedMultiplier s)) (planets s))
    \/ (exists i m,
          planets (handle e s) =
          updateAt i (fun p => set_speed (baseSpeed p * m) p) (planets s)).
Proof.
  intros e s. destruct e; simpl.
  - destruct (isPaused s) eqn:P.
    + left. now apply planets_animate_paused.
    + right. left. exists elapsedTime. split; [reflexivity|].
      now apply planets_animate_running.
  - left. reflexivity.
  - left. unfold onMouseMove.
    destruct (isMouseDown (controls s)); [apply planets_drag|reflexivity].
  - left. reflexivity.
  - left. unfold onMouseWheel. simpl.
    destruct (cameraFollowMode s); reflexivity.
  - left. apply planets_checkPlanetClick.
  - left. unfold onTouchStart.
    destruct touches as [|[x y] [|]]; reflexivity.
  - left. unfold onTouchMove.
    destruct touches as [|[x y] [|]]; try reflexivity.
    destruct (isMouseDown (controls s)); [apply planets_drag|reflexivity].
  - left. unfold onTouchEndEvent.
    destruct (_ && _)%bool; [now rewrite planets_checkPlanetClick|reflexivity].
  - left. unfold onWindowResize. destruct (stars s); reflexivity.
  - right. right. exists index, multiplier. reflexivity.
  - left. reflexivity.
  - left. reflexivity.
  - left. reflexivity.
  - left. apply (tweenUpdate_keeps point s).
  - left. apply (tweenComplete_keeps s).
Qed.

Lemma Forall_updateAt :
  forall (A : Type) (Q : A -> Prop) (f : A -> A),
    (forall a, Q a -> Q (f a)) ->
    forall (l : list A) (i : nat), Forall Q l -> Forall Q (updateAt i f l).
Proof.
  intros A Q f Hf. induction l as [|a l IH]; intros i H; simpl.
  - destruct i; constructor.
  - inversion H; subst. destruct i; constructor; auto.
Qed.

Lemma Forall_map_same :
  forall (A : Type) (Q Q' : A -> Prop) (f : A -> A),
    (forall a, Q a -> Q' (f a)) ->
    forall l : list A, Forall Q l -> Forall Q' (map f l).
Proof.
  intros A Q Q' f Hf. induction 1; simpl; constructor; auto.
Qed.

(** A property of planets that the update of a frame and the listener of a
    slider both keep is kept by every event. *)
Lemma handle_keeps_planets :
  forall Q : Planet -> Prop,
    (forall t g p, Q p -> Q (updatePlanet t g p)) ->
    (forall v p, Q p -> Q (set_speed v p)) ->
    forall e s, Forall Q (planets s) -> Forall Q (planets (handle e s)).
Proof.
  intros Q Hu Hs e s H.
  destruct (planets_handle_cases e s) as [E|[(t & _ & E)|(i & m & E)]];
    rewrite E.
  - exact H.
  - apply Forall_map_same with (Q := Q); auto.
  - apply Forall_updateAt; auto.
Qed.

(** *** The circular orbit *)

Lemma planets_boot : planets boot = newPlanetsFrom 0 planetData.
Proof. reflexivity. Qed.

Lemma boot_created : Forall created (planets boot).
Proof.
  rewrite planets_boot. unfold planetData, created. simpl.
  repeat constructor; simpl; lra.
Qed.

Lemma updatePlanet_created_orbiting :
  forall t g p, created p -> orbiting (updatePlanet t g p).
Proof.
  intros t g p [Hp Hr]. unfold orbiting, onOrbit. simpl.
  rewrite Hp. simpl. split; [reflexivity|exact Hr].
Qed.

Lemma updatePlanet_orbiting :
  forall t g p, orbiting p -> orbiting (updatePlanet t g p).
Proof.
  intros t g p [Hp Hr]. unfold orbiting, onOrbit in *. simpl.
  rewrite Hp. simpl. split; [reflexivity|exact Hr].
Qed.

Lemma reachable_orbiting :
  forall s, Reachable s -> Forall orbiting (planets s).
Proof.
  induction 1 as [t|e s _ IH].
  - rewrite planets_animate_running by reflexivity.
    apply Forall_map_same with (Q := created).
    + intros p. apply updatePlanet_created_orbiting.
    + apply boot_created.
  - apply handle_keeps_planets; auto.
    apply updatePlanet_orbiting.
Qed.

Lemma sqrt_lengthSq_on_circle :
  forall a r y, 0 < r -> y = 0 ->
    sqrt (lengthSq (mkVector3 (cos a * r) y (sin a * r))) = r.
Proof.
  intros a r y Hr Hy. subst y. unfold lengthSq. simpl.
  apply sqrt_lem_1; try lra.
  - pose proof (sin2_cos2 a) as H. unfold Rsqr in H.
    nra.
  - pose proof (sin2_cos2 a) as H. unfold Rsqr in H.
    replace (cos a * r * (cos a * r) + 0 * 0 + sin a * r * (sin a * r))
      with ((sin a * sin a + cos a * cos a) * (r * r)) by ring.
    rewrite H. ring.
Qed.

(** C2 (as amended). The planets leave [createPlanet] on the x axis
    of their orbit, whatever their starting angle; from the first frame
    on, in every state the page can reach, the mesh of every planet is
    at [(cos angle * orbitRadius, 0, sin angle * orbitRadius)].  In both
    cases its distance to the origin is [orbitRadius]. *)
Theorem planets_stay_on_their_orbit :
  (forall p, In p (planets boot) ->
      position (mesh p) = mkVector3 (orbitRadius p) 0 0
      /\ sqrt (lengthSq (position (mesh p))) = orbitRadius p)
  /\ (forall s, Reachable s ->
      forall p, In p (planets s) ->
        onOrbit p
        /\ sqrt (lengthSq (position (mesh p))) = orbitRadius p).
Proof.
  split.
  - intros p Hin.
    pose proof boot_created as H. rewrite Forall_forall in H.
    destruct (H p Hin) as [Hp Hr]. split; [exact Hp|].
    rewrite Hp. unfold lengthSq. simpl.
    replace (orbitRadius p * orbitRadius p + 0 * 0 + 0 * 0)
      with (orbitRadius p * orbitRadius p) by ring.
    apply sqrt_square. lra.
  - intros s Hs p Hin.
    pose proof (reachable_orbiting s Hs) as H. rewrite Forall_forall in H.
    destruct (H p Hin) as [Hp Hr]. split; [exact Hp|].
    rewrite Hp. now apply sqrt_lengthSq_on_circle.
Qed.

Lemma planets_stay_on_their_orbit_witness :
  onOrbit (updatePlanet 0 1
             (newPlanet (mkPlanetData "Venus" (18/10) 16762441%N 12 (5/1000) (8/10000)) 1))
  /\ sqrt (lengthSq (position (mesh (updatePlanet 0 1
             (newPlanet (mkPlanetData "Venus" (18/10) 16762441%N 12 (5/1000) (8/10000)) 1)))))
     = 12.
Proof.
  apply (proj2 planets_stay_on_their_orbit firstFrame (reach_init 0)).
  right. left. reflexivity.
Defined.

(** C2, the claim as written, fails just after the registry is created:
    Venus is created at angle [2 PI / 8] but its mesh is put on the x
    axis, where the sine of that angle would have to be 0. *)
Lemma created_planets_not_all_on_orbit :
  ~ (forall p, In p (planets boot) -> onOrbit p).
Proof.
  intros H.
  assert (Hin : In (newPlanet (mkPlanetData "Venus" (18/10) 16762441%N 12
                                 (5/1000) (8/10000)) 1) (planets boot)).
  { right. left. reflexivity. }
  specialize (H _ Hin). unfold onOrbit in H. simpl in H.
  injection H as _ Hz.
  replace ((1 * PI * 2) / 8) with (PI / 4) in Hz by lra.
  rewrite sin_PI4 in Hz.
  assert (Hs : 0 < sqrt 2) by (apply sqrt_lt_R0; lra).
  assert (Hi : 0 < / sqrt 2) by (now apply Rinv_0_lt_compat).
  unfold Rdiv in Hz. lra.
Qed.

(** *** Dragging *)

Lemma PI_gt_3 : 3 < PI.
Proof. pose proof PI2_3_2. lra. Qed.

Lemma constrainPhi_inside :
  forall x, 1/10 <= x <= PI - 1/10 -> constrainPhi x = x.
Proof.
  intros x [H1 H2]. unfold constrainPhi.
  rewrite Rmin_right by exact H2. now rewrite Rmax_right.
Qed.

(** C4 (as amended). A move of the held pointer always rewrites the two
    spherical angles from the pixel delta and never the spherical radius;
    the camera itself is left alone exactly when the follow mode is on,
    that is while a planet is focused, and is otherwise put at the new
    spherical position.  A one-finger touch move is the same event. *)
Theorem drag_spares_camera_in_follow_mode :
  forall (s : SolarSystem) (x y : R),
    isMouseDown (controls s) = true ->
    let s' := onMouseMove x y s in
    let c := controls s in
    radius (spherical (controls s')) = radius (spherical c)
    /\ theta (spherical (controls s')) =
       theta (spherical c) - (x - mouseX c) * c_rotationSpeed c
    /\ phi (spherical (controls s')) =
       constrainPhi (phi (spherical c) + (y - mouseY c) * c_rotationSpeed c)
    /\ (cameraFollowMode s = true -> camera s' = camera s)
    /\ (cameraFollowMode s = false ->
        camera s' =
        mkCamera (add (setFromSpherical (spherical (controls s'))) (target c))
                 (target c))
    /\ onTouchMove [(x, y)] s = s'.
Proof.
  intros s x y Hd s' c. subst s' c.
  unfold onTouchMove, onMouseMove, drag. rewrite Hd. simpl.
  destruct (cameraFollowMode s); simpl; repeat split; auto; discriminate.
Qed.

Lemma drag_spares_camera_in_follow_mode_witness :
  let s := earthFocusedHeld in
  let s' := onMouseMove 100 0 s in
  let c := controls s in
  radius (spherical (controls s')) = radius (spherical c)
  /\ theta (spherical (controls s')) =
     theta (spherical c) - (100 - mouseX c) * c_rotationSpeed c
  /\ phi (spherical (controls s')) =
     constrainPhi (phi (spherical c) + (0 - mouseY c) * c_rotationSpeed c)
  /\ (cameraFollowMode s = true -> camera s' = camera s)
  /\ (cameraFollowMode s = false ->
      camera s' =
      mkCamera (add (setFromSpherical (spherical (controls s'))) (target c))
               (target c))
  /\ onTouchMove [(100, 0)] s = s'.
Proof.
  exact (drag_spares_camera_in_follow_mode earthFocusedHeld 100 0 eq_refl).
Defined.

Lemma reachable_earthFocusedHeld : Reachable earthFocusedHeld.
Proof.
  exact (reach_step (MouseDown 0 0) _
           (reach_step (Click (Some (HitMesh 2))) _ (reach_init 0))).
Qed.

Lemma reachable_sunSelected : Reachable sunSelected.
Proof.
  exact (reach_step (Click (Some HitSun)) _ (reach_init 0)).
Qed.

Lemma reachable_sunFocusedHeld : Reachable sunFocusedHeld.
Proof.
  exact (reach_step (MouseDown 0 0) _ reachable_sunSelected).
Qed.

(** C4, the claim as written, fails.  With Earth focused and the button
    held, moving the pointer 100 pixels to the right takes the azimuth
    from 0 to -0.5.  With the Sun focused the same move also takes the
    camera off the plane x = 0 it was in. *)
Lemma drag_changes_camera_parameters_under_focus :
  (Reachable earthFocusedHeld
   /\ focusActive earthFocusedHeld
   /\ currentFocusedPlanet earthFocusedHeld = Some 2%nat
   /\ isMouseDown (controls earthFocusedHeld) = true
   /\ theta (spherical (controls earthFocusedHeld)) = 0
   /\ theta (spherical (controls (onMouseMove 100 0 earthFocusedHeld))) = - (1/2))
  /\ (Reachable sunFocusedHeld
      /\ focusActive sunFocusedHeld
      /\ isMouseDown (controls sunFocusedHeld) = true
      /\ theta (spherical (controls sunFocusedHeld)) = 0
      /\ theta (spherical (controls (onMouseMove 100 0 sunFocusedHeld))) = - (1/2)
      /\ vx (cam_position (camera sunFocusedHeld)) = 0
      /\ vx (cam_position (camera (onMouseMove 100 0 sunFocusedHeld))) < 0).
Proof.
  split.
  - split; [exact reachable_earthFocusedHeld|].
    split; [left; reflexivity|].
    repeat split; simpl; lra.
  - split; [exact reachable_sunFocusedHeld|].
    split; [left; reflexivity|].
    split; [reflexivity|].
    split; [reflexivity|].
    split; [simpl; lra|].
    split.
    + simpl. rewrite sin_0. ring.
    + simpl.
      replace (PI / 3 + (0 - 0) * (5 / 1000)) with (PI / 3) by lra.
      rewrite constrainPhi_inside
        by (pose proof PI_gt_3; pose proof PI_4; lra).
      replace (0 - (100 - 0) * (5 / 1000)) with (- (1/2)) by lra.
      rewrite sin_neg.
      assert (H1 : 0 < sin (PI / 3)).
      { apply sin_gt_0; pose proof PI_gt_3; lra. }
      assert (H2 : 0 < sin (1/2)).
      { apply sin_gt_0; pose proof PI_gt_3; lra. }
      nra.
Qed.

(** *** Reset *)

(** C6. Whatever was selected before, and from whatever state, the click
    on the reset button clears the focus reference and the follow mode,
    hides the overlay, puts the orbit controls back to radius 50, polar
    angle [PI / 3], azimuth 0 and target origin, and asks for the
    transition to the default camera position.  A second click changes
    nothing. *)
Theorem reset_restores_defaults :
  forall (hits : list (option Hit)) (s : SolarSystem),
    let s' := resetClick (selections hits s) in
    currentFocusedPlanet s' = None
    /\ cameraFollowMode s' = false
    /\ active (planetInfo s') = false
    /\ spherical (controls s') = mkSpherical 50 (PI / 3) 0
    /\ target (controls s') = origin
    /\ tween s' = Some (mkTween 2 (defaultCameraPosition s') (LookPoint origin))
    /\ resetClick s' = s'.
Proof.
  intros hits s. generalize (selections hits s). intros s0 s'. subst s'.
  repeat split; reflexivity.
Qed.

(** *** Focus and overlay *)

Lemma name_updatePlanet : forall t g p, name (updatePlanet t g p) = name p.
Proof. reflexivity. Qed.

Lemma handle_nth_name :
  forall e s i p,
    nth_error (planets s) i = Some p ->
    exists p', nth_error (planets (handle e s)) i = Some p' /\ name p' = name p.
Proof.
  intros e s i p Hp.
  destruct (planets_handle_cases e s) as [E|[(t & _ & E)|(j & m & E)]];
    rewrite E.
  - now exists p.
  - rewrite nth_error_map, Hp. simpl. eexists. split; reflexivity.
  - destruct (Nat.eq_dec j i) as [->|Hne].
    + rewrite nth_error_updateAt_same, Hp. simpl. eexists. split; reflexivity.
    + rewrite nth_error_updateAt_other by exact Hne. now exists p.
Qed.

Lemma focusConsistent_checkPlanetClick :
  forall h s, focusConsistent s -> focusConsistent (checkPlanetClick h s).
Proof.
  intros [[|i|]|] s H; simpl; auto.
  - unfold focusConsistent. simpl. auto.
  - destruct (nth_error (planets s) i) as [p|] eqn:Hp; auto.
    unfold focusConsistent. simpl. repeat split; auto.
    exists p. auto.
Qed.

Lemma handle_keepsFocus :
  forall e s,
    keepsFocus e = true ->
    currentFocusedPlanet (handle e s) = currentFocusedPlanet s
    /\ cameraFollowMode (handle e s) = cameraFollowMode s
    /\ planetInfo (handle e s) = planetInfo s.
Proof.
  intros e s H. destruct e; try discriminate H; simpl.
  - destruct (animate_keeps elapsedTime s) as (_ & _ & _ & F & M & I & _).
    auto.
  - auto.
  - unfold onMouseMove, drag.
    destruct (isMouseDown (controls s)); simpl; auto.
    destruct (cameraFollowMode s) eqn:F; simpl; auto.
  - auto.
  - unfold onMouseWheel. simpl.
    destruct (cameraFollowMode s) eqn:F; simpl; auto.
  - unfold onTouchStart. destruct touches as [|[x y] [|]]; auto.
  - unfold onTouchMove, drag. destruct touches as [|[x y] [|]]; auto.
    destruct (isMouseDown (controls s)); simpl; auto.
    destruct (cameraFollowMode s) eqn:F; simpl; auto.
  - unfold onWindowResize. destruct (stars s); auto.
  - auto.
  - auto.
  - destruct (tweenUpdate_keeps point s) as (_ & _ & _ & _ & _ & F & M & I).
    auto.
  - destruct (tweenComplete_keeps s) as (_ & _ & _ & _ & _ & F & M & I).
    auto.
Qed.

Lemma focusConsistent_handle :
  forall e s, focusConsistent s -> focusConsistent (handle e s).
Proof.
  intros e s H. destruct (keepsFocus e) eqn:K.
  - destruct (handle_keepsFocus e s K) as (F & M & I).
    unfold focusConsistent in *. rewrite F, M, I.
    destruct (currentFocusedPlanet s) as [i|]; auto.
    destruct H as (H1 & H2 & p & Hp & Hn).
    destruct (handle_nth_name e s i p Hp) as (p' & Hp' & Hn').
    repeat split; auto. exists p'. split; auto. congruence.
  - destruct e; try discriminate K; simpl.
    + now apply focusConsistent_checkPlanetClick.
    + unfold onTouchEndEvent.
      assert (H' : focusConsistent (onMouseUp s)) by exact H.
      destruct (_ && _)%bool; auto.
      now apply focusConsistent_checkPlanetClick.
    + unfold focusConsistent. simpl. split; [reflexivity|discriminate].
    + unfold focusConsistent. simpl. split; [reflexivity|discriminate].
Qed.

Lemma reachable_focusConsistent :
  forall s, Reachable s -> focusConsistent s.
Proof.
  induction 1 as [t|e s _ IH].
  - destruct (animate_keeps t boot) as (_ & _ & _ & F & M & I & _).
    unfold focusConsistent. rewrite F, M, I. simpl.
    split; [reflexivity|discriminate].
  - now apply focusConsistent_handle.
Qed.

(** In the states the page can reach, the guard of the basic script
    ([!this.currentFocusedPlanet]) and the guard of the enhanced one
    ([!this.cameraFollowMode]) let the same drags through. *)
Lemma drag_guards_agree :
  forall s x y, Reachable s -> dragBasic x y s = drag x y s.
Proof.
  intros s x y Hs. pose proof (reachable_focusConsistent s Hs) as H.
  unfold focusConsistent in H. unfold dragBasic, drag. simpl.
  destruct (currentFocusedPlanet s) as [i|].
  - destruct H as (-> & _). reflexivity.
  - destruct H as (-> & _). reflexivity.
Qed.

(** C7 (as amended). In every state the page can reach, a planet
    reference in [currentFocusedPlanet] comes with a shown overlay, and
    the overlay then shows that planet; the follow mode is on exactly
    when there is a reference; and an overlay shown without a reference
    is the overlay of the Sun, for which the class keeps no reference. *)
Theorem focus_reference_implies_overlay :
  forall s : SolarSystem,
    Reachable s ->
    (currentFocusedPlanet s <> None -> active (planetInfo s) = true)
    /\ (cameraFollowMode s = true <-> currentFocusedPlanet s <> None)
    /\ (forall i, currentFocusedPlanet s = Some i ->
          exists p, nth_error (planets s) i = Some p
                    /\ shownName (planetInfo s) = name p)
    /\ (active (planetInfo s) = true -> currentFocusedPlanet s = None ->
          shownName (planetInfo s) = "Sun").
Proof.
  intros s Hs. pose proof (reachable_focusConsistent s Hs) as H.
  unfold focusConsistent in H.
  destruct (currentFocusedPlanet s) as [i|].
  - destruct H as (H1 & H2 & p & Hp & Hn).
    repeat split; auto; try discriminate.
    intros j [= <-]. now exists p.
  - destruct H as (H1 & H2).
    repeat split; auto; try congruence; try discriminate.
Qed.

Lemma focus_reference_implies_overlay_witness :
  (currentFocusedPlanet earthFocusedHeld <> None ->
     active (planetInfo earthFocusedHeld) = true)
  /\ (cameraFollowMode earthFocusedHeld = true <->
      currentFocusedPlanet earthFocusedHeld <> None)
  /\ (forall i, currentFocusedPlanet earthFocusedHeld = Some i ->
        exists p, nth_error (planets earthFocusedHeld) i = Some p
                  /\ shownName (planetInfo earthFocusedHeld) = name p)
  /\ (active (planetInfo earthFocusedHeld) = true ->
      currentFocusedPlanet earthFocusedHeld = None ->
      shownName (planetInfo earthFocusedHeld) = "Sun").
Proof.
  apply (focus_reference_implies_overlay earthFocusedHeld).
  exact (reach_step (MouseDown 0 0) _
           (reach_step (Click (Some (HitMesh 2))) _ (reach_init 0))).
Defined.

(** C7, the claim as written, fails once the Sun is clicked: the
    overlay is shown and [currentFocusedPlanet] is [null]. *)
Lemma sun_overlay_without_reference :
  Reachable sunSelected
  /\ active (planetInfo sunSelected) = true
  /\ currentFocusedPlanet sunSelected = None
  /\ ~ focusMatchesOverlay sunSelected.
Proof.
  split; [exact (reach_step (Click (Some HitSun)) _ (reach_init 0))|].
  split; [reflexivity|]. split; [reflexivity|].
  unfold focusMatchesOverlay. intros [_ H].
  apply H; reflexivity.
Qed.

(** *** The speed setter *)

Lemma findIndexFrom_unknown :
  forall n l i,
    ~ In n (map name l) -> findIndexFrom n l i = None.
Proof.
  intros n. induction l as [|p l IH]; intros i H; simpl; [reflexivity|].
  destruct (String.eqb (name p) n) eqn:E.
  - apply String.eqb_eq in E. exfalso. apply H. now left.
  - apply IH. intro Hin. apply H. now right.
Qed.

Lemma findIndexFrom_known :
  forall n l i,
    In n (map name l) ->
    exists k p,
      findIndexFrom n l i = Some (i + k)%nat
      /\ nth_error l k = Some p
      /\ name p = n.
Proof.
  intros n. induction l as [|q l IH]; intros i H; simpl in *; [contradiction|].
  destruct (String.eqb (name q) n) eqn:E.
  - apply String.eqb_eq in E. exists 0%nat, q.
    rewrite Nat.add_0_r. auto.
  - destruct H as [H|H].
    + apply String.eqb_neq in E. contradiction.
    + destruct (IH (S i) H) as (k & p & Hf & Hp & Hn).
      exists (S k), p. rewrite Nat.add_succ_r. auto.
Qed.

(** C9. For a name that no planet of the registry bears, the setter
    returns the instance as it was, for every value.  For a name that
    one bears, the setter does what the slider listener of the planet
    found does: that planet gets [speed = baseSpeed * value], for every
    real [value], negative or large, nothing else of it changes, and the
    other planets are left as they were. *)
Theorem setSpeedMultiplier_unknown_is_noop :
  forall (s : SolarSystem) (n : string) (value : R),
    (~ In n (map name (planets s)) -> setSpeedMultiplier n value s = s)
    /\ (In n (map name (planets s)) ->
        exists i p p',
          nth_error (planets s) i = Some p
          /\ name p = n
          /\ setSpeedMultiplier n value s = sliderInput i value s
          /\ nth_error (planets (setSpeedMultiplier n value s)) i = Some p'
          /\ speed p' = baseSpeed p * value
          /\ baseSpeed p' = baseSpeed p
          /\ name p' = name p
          /\ angle p' = angle p
          /\ mesh p' = mesh p
          /\ orbitRadius p' = orbitRadius p
          /\ rotationSpeed p' = rotationSpeed p
          /\ material p' = material p
          /\ forall j, j <> i ->
               nth_error (planets (setSpeedMultiplier n value s)) j =
               nth_error (planets s) j).
Proof.
  intros s n value. split; intros H; unfold setSpeedMultiplier.
  - now rewrite findIndexFrom_unknown.
  - destruct (findIndexFrom_known n (planets s) 0 H) as (k & p & Hf & Hp & Hn).
    rewrite Hf. simpl Nat.add.
    exists k, p, (mkPlanet (name p) (mesh p) (orbitRadius p) (angle p)
                    (baseSpeed p * value) (baseSpeed p) (rotationSpeed p)
                    (color p) (material p)).
    split; [exact Hp|]. split; [exact Hn|]. split; [reflexivity|].
    split.
    + unfold sliderInput. simpl.
      rewrite nth_error_updateAt_same, Hp. reflexivity.
    + simpl. repeat split.
      intros j Hj. now apply nth_error_updateAt_other.
Qed.

Lemma setSpeedMultiplier_unknown_is_noop_witness :
  setSpeedMultiplier "Pluto" 5 firstFrame = firstFrame
  /\ exists i p p',
       nth_error (planets firstFrame) i = Some p
       /\ name p = "Mars"
       /\ setSpeedMultiplier "Mars" (-7) firstFrame =
          sliderInput i (-7) firstFrame
       /\ nth_error (planets (setSpeedMultiplier "Mars" (-7) firstFrame)) i
          = Some p'
       /\ speed p' = baseSpeed p * (-7)
       /\ baseSpeed p' = baseSpeed p
       /\ name p' = name p
       /\ angle p' = angle p
       /\ mesh p' = mesh p
       /\ orbitRadius p' = orbitRadius p
       /\ rotationSpeed p' = rotationSpeed p
       /\ material p' = material p
       /\ forall j, j <> i ->
            nth_error (planets (setSpeedMultiplier "Mars" (-7) firstFrame)) j =
            nth_error (planets firstFrame) j.
Proof.
  split.
  - apply (proj1 (setSpeedMultiplier_unknown_is_noop firstFrame "Pluto" 5)).
    simpl. intuition discriminate.
  - apply (proj2 (setSpeedMultiplier_unknown_is_noop firstFrame "Mars" (-7))).
    simpl. do 3 right. left. reflexivity.
Defined.

(** *** Following a planet *)

Lemma follow_focused :
  forall s i p,
    cameraFollowMode s = true ->
    currentFocusedPlanet s = Some i ->
    nth_error (planets s) i = Some p ->
    camera (follow s) =
    mkCamera (lerp (cam_position (camera s)) (targetCameraPosition p) (5/100))
             (position (mesh p)).
Proof.
  intros s i p F C P. unfold follow. now rewrite F, C, P.
Qed.

Lemma lerp_fixed_point :
  forall c T a, a <> 0 -> lerp c T a = c -> c = T.
Proof.
  intros [cx cy cz] [tx ty tz] a Ha H. unfold lerp in H. simpl in H.
  injection H as Hx Hy Hz.
  f_equal; nra.
Qed.

(** C10. In a paused instance that follows the planet at index [i], a
    frame leaves the planets as they are and still writes the camera: it
    goes 5% of the way to the follow point of the frozen planet and is
    turned to the planet, so it moves whenever it is not yet at that
    point. *)
Theorem paused_frame_still_moves_camera :
  forall (s : SolarSystem) (t : R) (i : nat) (p : Planet),
    isPaused s = true ->
    cameraFollowMode s = true ->
    currentFocusedPlanet s = Some i ->
    nth_error (planets s) i = Some p ->
    planets (animate t s) = planets s
    /\ cam_position (camera (animate t s)) =
       lerp (cam_position (camera s)) (targetCameraPosition p) (5/100)
    /\ cam_lookAt (camera (animate t s)) = position (mesh p)
    /\ (cam_position (camera s) <> targetCameraPosition p ->
        cam_position (camera (animate t s)) <> cam_position (camera s)).
Proof.
  intros s t i p P F C Hp.
  split; [now apply planets_animate_paused|].
  unfold animate. rewrite P, (follow_focused s i p F C Hp). simpl.
  repeat split; auto.
  intros Hne Heq. apply Hne.
  apply (lerp_fixed_point _ _ (5/100)); [lra|exact Heq].
Qed.

Lemma paused_frame_still_moves_camera_witness :
  let s := jupiterFollowedPaused in
  let p := updatePlanet 0 1
             (newPlanet (mkPlanetData "Jupiter" (55/10) 14207645%N 28
                           (1/1000) (2/100)) 4) in
  planets (animate 7 s) = planets s
  /\ cam_position (camera (animate 7 s)) =
     lerp (cam_position (camera s)) (targetCameraPosition p) (5/100)
  /\ cam_lookAt (camera (animate 7 s)) = position (mesh p)
  /\ (cam_position (camera s) <> targetCameraPosition p ->
      cam_position (camera (animate 7 s)) <> cam_position (camera s)).
Proof.
  exact (paused_frame_still_moves_camera jupiterFollowedPaused 7 4
           (updatePlanet 0 1
              (newPlanet (mkPlanetData "Jupiter" (55/10) 14207645%N 28
                            (1/1000) (2/100)) 4))
           eq_refl eq_refl eq_refl eq_refl).
Defined.

(** *** Smoothing toward the follow point *)

Lemma lerp_remaining :
  forall c T a, sub (lerp c T a) T = scale (1 - a) (sub c T).
Proof.
  intros [cx cy cz] [tx ty tz] a. unfold sub, lerp, scale. simpl.
  f_equal; ring.
Qed.

Lemma lengthSq_scale :
  forall k v, lengthSq (scale k v) = (k * k) * lengthSq v.
Proof.
  intros k [x y z]. unfold lengthSq, scale. simpl. ring.
Qed.

Lemma lengthSq_nonneg : forall v, 0 <= lengthSq v.
Proof.
  intros [x y z]. unfold lengthSq. simpl. nra.
Qed.

Lemma scale_scale :
  forall a b v, scale a (scale b v) = scale (a * b) v.
Proof.
  intros a b [x y z]. unfold scale. simpl. f_equal; ring.
Qed.

Lemma animate_follow_camera :
  forall s t i p',
    cameraFollowMode s = true ->
    currentFocusedPlanet s = Some i ->
    nth_error (planets (animate t s)) i = Some p' ->
    camera (animate t s) =
    mkCamera (lerp (cam_position (camera s)) (targetCameraPosition p') (5/100))
             (position (mesh p')).
Proof.
  intros s t i p' F C Hp. unfold animate in *.
  rewrite planets_follow in Hp.
  destruct (isPaused s).
  - now apply (follow_focused s i p').
  - now rewrite (follow_focused (advance t s) i p' F C Hp).
Qed.

Lemma frames_paused_follow_camera :
  forall clock s i p,
    isPaused s = true ->
    cameraFollowMode s = true ->
    currentFocusedPlanet s = Some i ->
    nth_error (planets s) i = Some p ->
    sub (cam_position (camera (frames clock s))) (targetCameraPosition p) =
    scale ((95/100) ^ List.length clock)
          (sub (cam_position (camera s)) (targetCameraPosition p)).
Proof.
  induction clock as [|t clock IH]; intros s i p P F C Hp.
  - simpl. destruct (sub _ _) as [x y z]. unfold scale. simpl.
    f_equal; ring.
  - rewrite frames_cons.
    destruct (animate_keeps t s) as (P' & _ & _ & C' & F' & _).
    assert (Hp' : nth_error (planets (animate t s)) i = Some p)
      by (now rewrite planets_animate_paused).
    rewrite (IH (animate t s) i p); try congruence.
    rewrite (animate_follow_camera s t i p F C Hp'). simpl cam_position.
    rewrite lerp_remaining, scale_scale. f_equal.
    simpl. lra.
Qed.

Lemma pow_95_bounds : forall n : nat, 0 < (95/100) ^ n <= 1.
Proof.
  intros n. split.
  - apply pow_lt. lra.
  - rewrite <- (pow1 n). apply pow_incr. lra.
Qed.

Lemma body_distance_expansion :
  forall c0 P O cn t,
    sub cn (add P O) = scale t (sub c0 (add P O)) ->
    lengthSq (sub cn P) - lengthSq O =
    t * (2 * dot O (sub c0 (add P O)))
    + (t * t) * lengthSq (sub c0 (add P O)).
Proof.
  intros [cx cy cz] [px py pz] [ox oy oz] [x y z] t H.
  unfold sub, add, scale, lengthSq, dot in *. simpl in *.
  injection H as Hx Hy Hz.
  assert (Ex : x - px = ox + t * (cx - (px + ox))) by lra.
  assert (Ey : y - py = oy + t * (cy - (py + oy))) by lra.
  assert (Ez : z - pz = oz + t * (cz - (pz + oz))) by lra.
  rewrite Ex, Ey, Ez. ring.
Qed.

Lemma paused_follow_body_distance_converges :
  forall s i p,
    isPaused s = true ->
    cameraFollowMode s = true ->
    currentFocusedPlanet s = Some i ->
    nth_error (planets s) i = Some p ->
    forall eps, 0 < eps ->
      exists N : nat, forall clock,
        (N <= List.length clock)%nat ->
        Rabs (cameraToBodySq (frames clock s) p - lengthSq (cameraOffset p))
        < eps.
Proof.
  intros s i p P F C Hp eps Heps.
  set (d := sub (cam_position (camera s)) (targetCameraPosition p)).
  set (K := Rabs (2 * dot (cameraOffset p) d) + lengthSq d).
  assert (HK : 0 <= K).
  { unfold K. pose proof (Rabs_pos (2 * dot (cameraOffset p) d)).
    pose proof (lengthSq_nonneg d). lra. }
  destruct (pow_lt_1_zero (95/100)) with (y := eps / (K + 1)) as [N HN].
  - rewrite Rabs_pos_eq; lra.
  - apply Rdiv_lt_0_compat; lra.
  - exists N. intros clock Hlen.
    pose proof (frames_paused_follow_camera clock s i p P F C Hp) as Hcam.
    unfold cameraToBodySq, distanceToSquared.
    unfold targetCameraPosition in Hcam.
    rewrite (body_distance_expansion _ _ _ _ _ Hcam).
    fold (targetCameraPosition p). fold d.
    pose proof (pow_95_bounds (List.length clock)) as [Hq0 Hq1].
    specialize (HN (List.length clock) Hlen).
    rewrite Rabs_pos_eq in HN by lra.
    set (q := (95/100) ^ List.length clock) in *.
    assert (Hq : q * (K + 1) < eps).
    { apply (Rmult_lt_compat_r (K + 1)) in HN; [|lra].
      unfold Rdiv in HN. rewrite Rmult_assoc, Rinv_l in HN; lra. }
    pose proof (lengthSq_nonneg d) as Hd.
    apply Rle_lt_trans with (q * K); [|nra].
    unfold K.
    eapply Rle_trans; [apply Rabs_triang|].
    rewrite Rabs_mult, (Rabs_pos_eq q) by lra.
    rewrite (Rabs_pos_eq (q * q * lengthSq d)) by nra.
    assert (H1 : 0 <= q * lengthSq d) by nra.
    assert (H2 : q * (q * lengthSq d) <= 1 * (q * lengthSq d))
      by (apply Rmult_le_compat_r; lra).
    lra.
Qed.

(** C8 (as amended). With the follow mode on, every frame puts the
    camera where [lerp] with factor 0.05 takes it toward the follow point
    of the focused planet as that frame leaves it (its position plus the
    turned offset), so that 95% of the displacement to that point
    remains, and turns the camera to the planet.  When no transition is
    in flight, so that the frames alone write the camera, and the planet
    does not move (the instance is paused), the squared distance from the
    camera to the follow point after [n] frames is [0.95 ^ n] squared
    times what it was: it never grows and it tends to 0, and the squared
    distance from the camera to the planet tends to the squared length of
    the offset. *)
Theorem follow_smoothing_contracts :
  (forall (s : SolarSystem) (t : R) (i : nat) (p' : Planet),
      cameraFollowMode s = true ->
      currentFocusedPlanet s = Some i ->
      nth_error (planets (animate t s)) i = Some p' ->
      cam_position (camera (animate t s)) =
        lerp (cam_position (camera s)) (targetCameraPosition p') (5/100)
      /\ sub (cam_position (camera (animate t s))) (targetCameraPosition p') =
         scale (95/100) (sub (cam_position (camera s)) (targetCameraPosition p'))
      /\ cam_lookAt (camera (animate t s)) = position (mesh p'))
  /\ (forall (s : SolarSystem) (i : nat) (p : Planet),
      isPaused s = true ->
      tween s = None ->
      cameraFollowMode s = true ->
      currentFocusedPlanet s = Some i ->
      nth_error (planets s) i = Some p ->
      (forall clock,
          cameraToTargetSq (frames clock s) p =
          ((95/100) ^ List.length clock * (95/100) ^ List.length clock)
          * cameraToTargetSq s p)
      /\ (forall clock t,
          cameraToTargetSq (animate t (frames clock s)) p
          <= cameraToTargetSq (frames clock s) p)
      /\ (forall eps, 0 < eps ->
          exists N : nat, forall clock,
            (N <= List.length clock)%nat ->
            cameraToTargetSq (frames clock s) p < eps)
      /\ (forall eps, 0 < eps ->
          exists N : nat, forall clock,
            (N <= List.length clock)%nat ->
            Rabs (cameraToBodySq (frames clock s) p
                  - lengthSq (cameraOffset p)) < eps)).
Proof.
  split.
  - intros s t i p' F C Hp.
    rewrite (animate_follow_camera s t i p' F C Hp). simpl.
    repeat split; auto.
    rewrite lerp_remaining. f_equal. lra.
  - intros s i p P _ F C Hp.
    assert (Hclosed : forall clock,
               cameraToTargetSq (frames clock s) p =
               ((95/100) ^ List.length clock * (95/100) ^ List.length clock)
               * cameraToTargetSq s p).
    { intros clock. unfold cameraToTargetSq, distanceToSquared.
      rewrite (frames_paused_follow_camera clock s i p P F C Hp).
      apply lengthSq_scale. }
    split; [exact Hclosed|].
    split; [|split;
             [|now apply (paused_follow_body_distance_converges s i p)]].
    + intros clock t. rewrite <- frames_snoc, !Hclosed.
      rewrite length_app. simpl List.length.
      rewrite Nat.add_1_r. simpl pow.
      pose proof (pow_95_bounds (List.length clock)) as [Hq0 Hq1].
      pose proof (lengthSq_nonneg
                    (sub (cam_position (camera s)) (targetCameraPosition p)))
        as HD.
      unfold cameraToTargetSq, distanceToSquared.
      set (q := (95/100) ^ List.length clock) in *.
      set (D := lengthSq _) in *.
      assert (0 <= q * q * D) by nra.
      nra.
    + intros eps Heps.
      pose proof (lengthSq_nonneg
                    (sub (cam_position (camera s)) (targetCameraPosition p)))
        as HD.
      fold (distanceToSquared (cam_position (camera s)) (targetCameraPosition p)) in HD.
      fold (cameraToTargetSq s p) in HD.
      destruct (pow_lt_1_zero (95/100)) with (y := eps / (cameraToTargetSq s p + 1))
        as [N HN].
      * rewrite Rabs_pos_eq; lra.
      * apply Rdiv_lt_0_compat; lra.
      * exists N. intros clock Hlen. rewrite Hclosed.
        pose proof (pow_95_bounds (List.length clock)) as [Hq0 Hq1].
        specialize (HN (List.length clock) Hlen).
        rewrite Rabs_pos_eq in HN by lra.
        set (q := (95/100) ^ List.length clock) in *.
        set (D := cameraToTargetSq s p) in *.
        assert (Hq : q * (D + 1) < eps).
        { apply (Rmult_lt_compat_r (D + 1)) in HN; [|lra].
          unfold Rdiv in HN. rewrite Rmult_assoc, Rinv_l in HN; lra. }
        nra.
Qed.

(** *** A camera left behind the planet by the transition *)

Lemma small_angle : 0 < sin (1/1000) < 1/1000 /\ 99/100 < cos (1/1000) <= 1.
Proof.
  assert (Hpi := PI2_3_2).
  assert (H1 : 0 < sin (1/1000)) by (apply sin_gt_0; lra).
  assert (H2 : sin (1/1000) < 1/1000) by (apply sin_lt_x; lra).
  assert (H3 : 0 < cos (1/1000)) by (apply cos_gt_0; lra).
  pose proof (sin2_cos2 (1/1000)) as H4. unfold Rsqr in H4.
  pose proof (COS_bound (1/1000)) as [_ H5].
  repeat split; try lra. nra.
Qed.

Lemma jupiter_angle : angle jupiterAfterFirstFrame = 1/1000 + PI.
Proof. unfold jupiterAfterFirstFrame. simpl. lra. Qed.

Lemma jupiter_position :
  position (mesh jupiterAfterFirstFrame) =
  mkVector3 (- cos (1/1000) * 28) 0 (- sin (1/1000) * 28).
Proof.
  unfold jupiterAfterFirstFrame. simpl.
  match goal with
  | |- context [cos ?a] => replace a with (1/1000 + PI) by lra
  end.
  rewrite neg_cos, neg_sin. reflexivity.
Qed.

Lemma jupiter_offset :
  cameraOffset jupiterAfterFirstFrame =
  mkVector3 (- cos (1/1000) * 22 - sin (1/1000) * (55/2)) (55/4)
            (sin (1/1000) * 22 - cos (1/1000) * (55/2)).
Proof.
  unfold cameraOffset. rewrite jupiter_angle. unfold applyRotationY.
  rewrite neg_cos, neg_sin. unfold jupiterAfterFirstFrame. simpl.
  f_equal; lra.
Qed.

Lemma jupiter_offset_lengthSq :
  lengthSq (cameraOffset jupiterAfterFirstFrame) = 22869/16.
Proof.
  rewrite jupiter_offset. unfold lengthSq. simpl.
  pose proof (sin2_cos2 (1/1000)) as H. unfold Rsqr in H. nra.
Qed.

Lemma reachable_jupiterFollowedPaused : Reachable jupiterFollowedPaused.
Proof.
  exact (reach_step (Click (Some (HitMesh 4))) _
           (reach_step PauseClick _ (reach_init 0))).
Qed.

Lemma reachable_jupiterFollowedSettled : Reachable jupiterFollowedSettled.
Proof.
  exact (reach_step TweenComplete _ reachable_jupiterFollowedPaused).
Qed.

Lemma camera_jupiterFollowedSettled :
  cam_position (camera jupiterFollowedSettled) =
  mkVector3 (- cos (1/1000) * 28) (55/4) (- sin (1/1000) * 28 + 55/2).
Proof.
  change (cam_position (camera jupiterFollowedSettled))
    with (mkVector3 (vx (position (mesh jupiterAfterFirstFrame)))
            (vy (position (mesh jupiterAfterFirstFrame))
             + geometry_radius (mesh jupiterAfterFirstFrame) * 5 * (5/10))
            (vz (position (mesh jupiterAfterFirstFrame))
             + geometry_radius (mesh jupiterAfterFirstFrame) * 5)).
  rewrite jupiter_position. simpl. f_equal; lra.
Qed.

Lemma settled_camera_after_frames :
  forall clock x y z,
    cam_position (camera (frames clock jupiterFollowedSettled)) =
      mkVector3 x y z ->
    let q := (95/100) ^ List.length clock in
    let c := cos (1/1000) in
    let sn := sin (1/1000) in
    x - - c * 28 = (1 - q) * (- c * 22 - sn * (55/2))
    /\ y - 0 = 55/4
    /\ z - - sn * 28 = q * (55/2) + (1 - q) * (sn * 22 - c * (55/2)).
Proof.
  intros clock x y z Hcam q c sn.
  pose proof (frames_paused_follow_camera clock jupiterFollowedSettled 4
                jupiterAfterFirstFrame eq_refl eq_refl eq_refl eq_refl)
    as H.
  rewrite Hcam in H. unfold targetCameraPosition in H.
  rewrite camera_jupiterFollowedSettled, jupiter_position, jupiter_offset in H.
  unfold sub, add, scale in H. cbn [vx vy vz] in H.
  injection H as Hx Hy Hz.
  fold q in Hx, Hy, Hz. fold c in Hx, Hy, Hz. fold sn in Hx, Hy, Hz.
  repeat split; lra.
Qed.

(** Frames that pass while the transition to a followed planet is in
    flight and the simulation is paused leave no trace once the
    transition has ended: its last tick writes the end point over what
    they wrote. *)
Lemma tweenComplete_after_paused_frames :
  forall clock s i p tw,
    isPaused s = true ->
    cameraFollowMode s = true ->
    currentFocusedPlanet s = Some i ->
    nth_error (planets s) i = Some p ->
    tween s = Some tw ->
    tw_look tw = LookPlanet i ->
    tweenComplete (frames clock s) = tweenComplete s.
Proof.
  induction clock as [|t clock IH]; intros s i p tw P F C Hp T L;
    [reflexivity|].
  rewrite frames_cons.
  assert (E : animate t s =
              set_camera
                (mkCamera (lerp (cam_position (camera s))
                                (targetCameraPosition p) (5/100))
                          (position (mesh p))) s).
  { unfold animate, follow. now rewrite P, F, C, Hp. }
  rewrite E.
  rewrite (IH _ i p tw); try assumption.
  - unfold tweenComplete. simpl. rewrite T. unfold lookedAt. rewrite L.
    simpl. rewrite Hp. reflexivity.
Qed.

(** C8, the claim as written, fails.  Pause after the first frame, click
    Jupiter and let the transition end: it leaves the camera 13.75 above
    and 27.5 behind the planet, nearer to it than the length of the
    offset (squared, 15125/16 against 22869/16).  The follow point lies
    on the other side of the planet, so the frames that come take the
    camera nearer still (squared, between 800 and 810 after one frame
    and less than 700 after two) instead of out to that length.  The
    frames that pass during the transition do not change where it
    ends. *)
Lemma follow_distance_moves_away_from_offset :
  Reachable jupiterFollowedSettled
  /\ (forall clock,
        tweenComplete (frames clock jupiterFollowedPaused)
        = jupiterFollowedSettled)
  /\ cameraFollowMode jupiterFollowedSettled = true
  /\ currentFocusedPlanet jupiterFollowedSettled = Some 4%nat
  /\ tween jupiterFollowedSettled = None
  /\ lengthSq (cameraOffset jupiterAfterFirstFrame) = 22869/16
  /\ cameraToBodySq jupiterFollowedSettled jupiterAfterFirstFrame = 15125/16
  /\ 800 < cameraToBodySq (frames [0] jupiterFollowedSettled)
              jupiterAfterFirstFrame < 810
  /\ cameraToBodySq (frames [0; 0] jupiterFollowedSettled)
       jupiterAfterFirstFrame < 700
  /\ ~ approachesOffsetMonotonically jupiterFollowedSettled 4
  /\ ~ approachesOffsetMonotonically (frames [0] jupiterFollowedSettled) 4.
Proof.
  assert (Hp : nth_error (planets jupiterFollowedSettled) 4
               = Some jupiterAfterFirstFrame) by reflexivity.
  assert (Hp1 : nth_error (planets (frames [0] jupiterFollowedSettled)) 4
                = Some jupiterAfterFirstFrame) by reflexivity.
  assert (Hp2 : nth_error (planets (frames [0; 0] jupiterFollowedSettled)) 4
                = Some jupiterAfterFirstFrame) by reflexivity.
  assert (D0 : cameraToBodySq jupiterFollowedSettled jupiterAfterFirstFrame
               = 15125/16).
  { unfold cameraToBodySq, distanceToSquared.
    rewrite camera_jupiterFollowedSettled, jupiter_position.
    unfold sub, lengthSq. cbn [vx vy vz]. field. }
  destruct small_angle as [[Hs0 Hs1] [Hc0 Hc1]].
  assert (Hfr : forall clock,
             tweenComplete (frames clock jupiterFollowedPaused)
             = jupiterFollowedSettled).
  { intros clock. unfold jupiterFollowedSettled.
    eapply (tweenComplete_after_paused_frames clock jupiterFollowedPaused 4);
      reflexivity. }
  assert (D1 : 800 < cameraToBodySq (frames [0] jupiterFollowedSettled)
                       jupiterAfterFirstFrame < 810).
  { unfold cameraToBodySq, distanceToSquared. rewrite jupiter_position.
    destruct (cam_position (camera (frames [0] jupiterFollowedSettled)))
      as [x y z] eqn:E.
    destruct (settled_camera_after_frames [0] x y z E) as (Hx & Hy & Hz).
    simpl in Hx, Hz.
    unfold sub, lengthSq. cbn [vx vy vz].
    set (c := cos (1/1000)) in *. set (sn := sin (1/1000)) in *.
    set (wx := x - - c * 28) in *. set (wy := y - 0) in *.
    set (wz := z - - sn * 28) in *.
    assert (Hwx : -12/10 <= wx <= 0) by lra.
    assert (Hwz : 2474/100 <= wz <= 248/10) by lra.
    assert (Hwx2 : 0 <= wx * wx <= 144/100) by nra.
    assert (Hwz2 : (2474/100) * (2474/100) <= wz * wz
                   <= (248/10) * (248/10)) by nra.
    rewrite Hy. lra. }
  assert (D2 : cameraToBodySq (frames [0; 0] jupiterFollowedSettled)
                 jupiterAfterFirstFrame < 700).
  { unfold cameraToBodySq, distanceToSquared. rewrite jupiter_position.
    destruct (cam_position (camera (frames [0; 0] jupiterFollowedSettled)))
      as [x y z] eqn:E.
    destruct (settled_camera_after_frames [0; 0] x y z E) as (Hx & Hy & Hz).
    simpl in Hx, Hz.
    unfold sub, lengthSq. cbn [vx vy vz].
    set (c := cos (1/1000)) in *. set (sn := sin (1/1000)) in *.
    set (wx := x - - c * 28) in *. set (wy := y - 0) in *.
    set (wz := z - - sn * 28) in *.
    assert (Hwx : -22/10 <= wx <= 0) by lra.
    assert (Hwz : 22 <= wz <= 222/10) by lra.
    assert (Hwx2 : wx * wx <= 484/100) by nra.
    assert (Hwz2 : wz * wz <= (222/10) * (222/10)) by nra.
    rewrite Hy. lra. }
  split; [exact reachable_jupiterFollowedSettled|].
  split; [exact Hfr|].
  split; [reflexivity|]. split; [reflexivity|]. split; [reflexivity|].
  split; [exact jupiter_offset_lengthSq|].
  split; [exact D0|]. split; [exact D1|]. split; [exact D2|].
  split.
  - intros H.
    destruct (H jupiterAfterFirstFrame Hp [] 0 jupiterAfterFirstFrame
                jupiterAfterFirstFrame Hp Hp1) as [_ Hbelow].
    rewrite jupiter_offset_lengthSq in Hbelow.
    change (animate 0 (frames [] jupiterFollowedSettled))
      with (frames [0] jupiterFollowedSettled) in Hbelow.
    change (frames [] jupiterFollowedSettled) with jupiterFollowedSettled
      in Hbelow.
    rewrite D0 in Hbelow.
    destruct Hbelow as [_ Hup]; lra.
  - intros H.
    destruct (H jupiterAfterFirstFrame Hp1 [] 0 jupiterAfterFirstFrame
                jupiterAfterFirstFrame Hp1 Hp2) as [_ Hbelow].
    rewrite jupiter_offset_lengthSq in Hbelow.
    change (animate 0 (frames [] (frames [0] jupiterFollowedSettled)))
      with (frames [0; 0] jupiterFollowedSettled) in Hbelow.
    change (frames [] (frames [0] jupiterFollowedSettled))
      with (frames [0] jupiterFollowedSettled) in Hbelow.
    destruct Hbelow as [_ Hup]; lra.
Qed.

Lemma follow_smoothing_contracts_witness :
  let s := jupiterFollowedSettled in
  let p := jupiterAfterFirstFrame in
  (cam_position (camera (animate 0 s)) =
     lerp (cam_position (camera s)) (targetCameraPosition p) (5/100)
   /\ sub (cam_position (camera (animate 0 s))) (targetCameraPosition p) =
      scale (95/100) (sub (cam_position (camera s)) (targetCameraPosition p))
   /\ cam_lookAt (camera (animate 0 s)) = position (mesh p))
  /\ ((forall clock,
          cameraToTargetSq (frames clock s) p =
          ((95/100) ^ List.length clock * (95/100) ^ List.length clock)
          * cameraToTargetSq s p)
      /\ (forall clock t,
          cameraToTargetSq (animate t (frames clock s)) p
          <= cameraToTargetSq (frames clock s) p)
      /\ (forall eps, 0 < eps ->
          exists N : nat, forall clock,
            (N <= List.length clock)%nat ->
            cameraToTargetSq (frames clock s) p < eps)
      /\ (forall eps, 0 < eps ->
          exists N : nat, forall clock,
            (N <= List.length clock)%nat ->
            Rabs (cameraToBodySq (frames clock s) p
                  - lengthSq (cameraOffset p)) < eps)).
Proof.
  split.
  - exact (proj1 follow_smoothing_contracts jupiterFollowedSettled 0 4%nat
             jupiterAfterFirstFrame eq_refl eq_refl eq_refl).
  - exact (proj2 follow_smoothing_contracts jupiterFollowedSettled 4%nat
             jupiterAfterFirstFrame eq_refl eq_refl eq_refl eq_refl eq_refl).
Defined.

(** *** Bounds of the orbit controls *)

Lemma constrainPhi_range : forall x, 1/10 <= constrainPhi x <= PI - 1/10.
Proof.
  intros x. pose proof PI_gt_3 as Hpi. unfold constrainPhi, Rmax, Rmin.
  destruct (Rle_dec (PI - 1/10) x); destruct (Rle_dec (1/10) _); lra.
Qed.

Lemma clamp_range :
  forall lo hi x, lo <= hi -> lo <= Rmax lo (Rmin hi x) <= hi.
Proof.
  intros lo hi x H. unfold Rmax, Rmin.
  destruct (Rle_dec hi x); destruct (Rle_dec lo _); lra.
Qed.

Lemma clamp_inside :
  forall lo hi x, lo <= x <= hi -> Rmax lo (Rmin hi x) = x.
Proof.
  intros lo hi x [H1 H2]. rewrite Rmin_right by exact H2.
  now rewrite Rmax_right.
Qed.

Lemma controls_checkPlanetClick :
  forall h s, controls (checkPlanetClick h s) = controls s.
Proof.
  intros [[|i|]|] s; simpl; try reflexivity.
  destruct (nth_error (planets s) i); reflexivity.
Qed.

Lemma controlsInRange_drag :
  forall x y s, controlsInRange s -> controlsInRange (drag x y s).
Proof.
  intros x y s (H1 & H2 & H3 & H4 & H5 & H6). unfold drag.
  destruct (cameraFollowMode _); unfold controlsInRange; simpl;
    repeat split; auto; try apply H5; apply constrainPhi_range.
Qed.

Lemma controlsInRange_wheel :
  forall d s, controlsInRange s -> controlsInRange (onMouseWheel d s).
Proof.
  intros d s (H1 & H2 & H3 & H4 & H5 & H6). unfold onMouseWheel.
  destruct (cameraFollowMode _); unfold controlsInRange; simpl;
    rewrite H1, H2; repeat split; auto; try apply H6;
    apply clamp_range; lra.
Qed.

Lemma controlsInRange_defaults :
  forall s,
    minDistance (controls s) = 10 ->
    maxDistance (controls s) = 200 ->
    c_rotationSpeed (controls s) = 5/1000 ->
    controlsInRange (resetCameraView s).
Proof.
  intros s H1 H2 H3. pose proof PI_gt_3. pose proof PI_4.
  unfold controlsInRange. simpl. repeat split; auto; lra.
Qed.

Lemma controlsInRange_handle :
  forall e s, controlsInRange s -> controlsInRange (handle e s).
Proof.
  intros e s H. destruct e; simpl.
  - destruct (animate_keeps elapsedTime s) as (_ & _ & C & _).
    unfold controlsInRange. now rewrite C.
  - exact H.
  - unfold onMouseMove. destruct (isMouseDown _); auto.
    now apply controlsInRange_drag.
  - exact H.
  - now apply controlsInRange_wheel.
  - unfold controlsInRange. now rewrite controls_checkPlanetClick.
  - unfold onTouchStart. destruct touches as [|[x y] [|]]; auto.
  - unfold onTouchMove. destruct touches as [|[x y] [|]]; auto.
    destruct (isMouseDown _); auto. now apply controlsInRange_drag.
  - unfold onTouchEndEvent. destruct (_ && _)%bool; auto.
    unfold controlsInRange. rewrite controls_checkPlanetClick. exact H.
  - unfold onWindowResize. destruct (stars s); auto.
  - exact H.
  - exact H.
  - destruct H as (H1 & H2 & H3 & _).
    apply (controlsInRange_defaults s H1 H2 H3).
  - destruct H as (H1 & H2 & H3 & _).
    apply (controlsInRange_defaults
             (set_focus None false (removeActive s)) H1 H2 H3).
  - destruct (tweenUpdate_keeps point s) as (_ & _ & _ & _ & C & _).
    unfold controlsInRange. now rewrite C.
  - destruct (tweenComplete_keeps s) as (_ & _ & _ & _ & C & _).
    unfold controlsInRange. now rewrite C.
Qed.

Lemma controlsInRange_boot_frame : forall t, controlsInRange (animate t boot).
Proof.
  intros t. destruct (animate_keeps t boot) as (_ & _ & C & _).
  unfold controlsInRange. rewrite C. simpl.
  pose proof PI_gt_3. pose proof PI_4. repeat split; auto; lra.
Qed.

Lemma controlsInRange_reachable :
  forall s : SolarSystem, Reachable s -> controlsInRange s.
Proof.
  induction 1 as [t|e s _ IH].
  - apply controlsInRange_boot_frame.
  - now apply controlsInRange_handle.
Qed.

(** X1. In every state the page can reach, the zoom radius of the orbit
    controls lies between 10 and 200, their polar angle between 0.1 and
    [PI - 0.1], their target is the origin, and the bounds and the
    rotation speed are the authored ones. *)
Theorem reachable_controls_in_range :
  forall s : SolarSystem,
    Reachable s ->
    10 <= radius (spherical (controls s)) <= 200
    /\ 1/10 <= phi (spherical (controls s)) <= PI - 1/10
    /\ target (controls s) = origin
    /\ minDistance (controls s) = 10
    /\ maxDistance (controls s) = 200
    /\ c_rotationSpeed (controls s) = 5/1000.
Proof.
  intros s Hs.
  destruct (controlsInRange_reachable s Hs) as (H1 & H2 & H3 & H4 & H5 & H6).
  repeat split; auto; lra.
Qed.

Lemma reachable_controls_in_range_witness :
  10 <= radius (spherical (controls sunFocusedHeld)) <= 200
  /\ 1/10 <= phi (spherical (controls sunFocusedHeld)) <= PI - 1/10
  /\ target (controls sunFocusedHeld) = origin
  /\ minDistance (controls sunFocusedHeld) = 10
  /\ maxDistance (controls sunFocusedHeld) = 200
  /\ c_rotationSpeed (controls sunFocusedHeld) = 5/1000.
Proof.
  exact (reachable_controls_in_range sunFocusedHeld
           (reach_step (MouseDown 0 0) _
              (reach_step (Click (Some HitSun)) _ (reach_init 0)))).
Defined.

(** *** Where the controls put the camera *)

Lemma lengthSq_setFromSpherical :
  forall sp, lengthSq (setFromSpherical sp) = radius sp * radius sp.
Proof.
  intros [r p t]. unfold lengthSq, setFromSpherical. simpl.
  pose proof (sin2_cos2 p) as Hp. pose proof (sin2_cos2 t) as Ht.
  unfold Rsqr in *.
  replace (sin p * r * sin t * (sin p * r * sin t)
           + cos p * r * (cos p * r)
           + sin p * r * cos t * (sin p * r * cos t))
    with (r * r * (sin p * sin p * (sin t * sin t + cos t * cos t)
                   + cos p * cos p)) by ring.
  rewrite Ht, Rmult_1_r, Hp. ring.
Qed.

Lemma distance_from_spherical :
  forall sp t,
    distanceToSquared (add (setFromSpherical sp) t) t = radius sp * radius sp.
Proof.
  intros sp t. unfold distanceToSquared.
  rewrite <- (lengthSq_setFromSpherical sp). f_equal.
  destruct (setFromSpherical sp) as [a b c]. destruct t as [tx ty tz].
  unfold sub, add. simpl. f_equal; ring.
Qed.

(** X2. [updateCameraFromControls] puts the camera on the sphere of the
    spherical radius around the target of the controls, at the height
    [cos phi * radius] above it, and turns it to the target.  With the
    follow mode off, the camera is so placed after every wheel event and
    after every move of the held pointer. *)
Theorem camera_on_control_sphere :
  forall s : SolarSystem,
    (distanceToSquared (cam_position (camera (updateCameraFromControls s)))
                       (target (controls s)) =
       radius (spherical (controls s)) * radius (spherical (controls s))
     /\ vy (cam_position (camera (updateCameraFromControls s)))
        - vy (target (controls s)) =
        cos (phi (spherical (controls s))) * radius (spherical (controls s))
     /\ cam_lookAt (camera (updateCameraFromControls s)) = target (controls s))
    /\ (cameraFollowMode s = false ->
        forall d,
          distanceToSquared (cam_position (camera (onMouseWheel d s)))
                            (target (controls (onMouseWheel d s))) =
            radius (spherical (controls (onMouseWheel d s)))
            * radius (spherical (controls (onMouseWheel d s)))
          /\ cam_lookAt (camera (onMouseWheel d s)) =
             target (controls (onMouseWheel d s)))
    /\ (cameraFollowMode s = false ->
        isMouseDown (controls s) = true ->
        forall x y,
          distanceToSquared (cam_position (camera (onMouseMove x y s)))
                            (target (controls (onMouseMove x y s))) =
            radius (spherical (controls (onMouseMove x y s)))
            * radius (spherical (controls (onMouseMove x y s)))
          /\ cam_lookAt (camera (onMouseMove x y s)) =
             target (controls (onMouseMove x y s))).
Proof.
  intros s. split; [|split].
  - simpl. repeat split.
    + apply distance_from_spherical.
    + unfold add, setFromSpherical. simpl. ring.
  - intros F d. unfold onMouseWheel. simpl. rewrite F. simpl.
    split; [|reflexivity]. now rewrite distance_from_spherical.
  - intros F Hd x y. unfold onMouseMove, drag. rewrite Hd. simpl.
    rewrite F. simpl.
    split; [|reflexivity]. now rewrite distance_from_spherical.
Qed.

Lemma camera_on_control_sphere_witness :
  (forall d,
      distanceToSquared (cam_position (camera (onMouseWheel d firstFrame)))
                        (target (controls (onMouseWheel d firstFrame))) =
        radius (spherical (controls (onMouseWheel d firstFrame)))
        * radius (spherical (controls (onMouseWheel d firstFrame)))
      /\ cam_lookAt (camera (onMouseWheel d firstFrame)) =
         target (controls (onMouseWheel d firstFrame)))
  /\ (forall x y,
        distanceToSquared (cam_position (camera (onMouseMove x y sunFocusedHeld)))
                          (target (controls (onMouseMove x y sunFocusedHeld))) =
          radius (spherical (controls (onMouseMove x y sunFocusedHeld)))
          * radius (spherical (controls (onMouseMove x y sunFocusedHeld)))
        /\ cam_lookAt (camera (onMouseMove x y sunFocusedHeld)) =
           target (controls (onMouseMove x y sunFocusedHeld))).
Proof.
  split.
  - exact (proj1 (proj2 (camera_on_control_sphere firstFrame)) eq_refl).
  - exact (proj2 (proj2 (camera_on_control_sphere sunFocusedHeld))
             eq_refl eq_refl).
Defined.

(** *** Zooming *)

(** X3. A wheel event multiplies the zoom radius by 1.1 when [deltaY] is
    positive and by 0.9 otherwise, also for [deltaY = 0], as long as the
    product stays within the bounds; the result is always within the
    bounds; the two angles are not touched; and with the follow mode on
    the camera is not moved. *)
Theorem wheel_scales_within_bounds :
  forall (s : SolarSystem) (d : R),
    let c := controls s in
    let c' := controls (onMouseWheel d s) in
    (0 < d ->
     minDistance c <= radius (spherical c) * (11/10) <= maxDistance c ->
     radius (spherical c') = radius (spherical c) * (11/10))
    /\ (d <= 0 ->
        minDistance c <= radius (spherical c) * (9/10) <= maxDistance c ->
        radius (spherical c') = radius (spherical c) * (9/10))
    /\ (minDistance c <= maxDistance c ->
        minDistance c <= radius (spherical c') <= maxDistance c)
    /\ phi (spherical c') = phi (spherical c)
    /\ theta (spherical c') = theta (spherical c)
    /\ (cameraFollowMode s = true -> camera (onMouseWheel d s) = camera s).
Proof.
  intros s d c c'. subst c c'. unfold onMouseWheel.
  destruct (cameraFollowMode s) eqn:F; simpl; rewrite ?F; simpl;
    (split; [|split; [|split; [|split; [|split]]]]);
    try reflexivity; try discriminate;
    try (intros Hd Hr; destruct (Rlt_dec 0 d); try lra;
         now apply clamp_inside);
    try (intros Hr; now apply clamp_range).
Qed.

Lemma wheel_scales_within_bounds_witness :
  radius (spherical (controls (onMouseWheel 1 firstFrame))) = 50 * (11/10)
  /\ radius (spherical (controls (onMouseWheel 0 firstFrame))) = 50 * (9/10)
  /\ camera (onMouseWheel 1 earthFocusedHeld) = camera earthFocusedHeld.
Proof.
  split; [|split].
  - apply (proj1 (wheel_scales_within_bounds firstFrame 1)); simpl; lra.
  - apply (proj1 (proj2 (wheel_scales_within_bounds firstFrame 0)));
      simpl; lra.
  - apply (proj2 (proj2 (proj2 (proj2 (proj2
             (wheel_scales_within_bounds earthFocusedHeld 1)))))).
    reflexivity.
Defined.

Lemma controlsInRange_wheels :
  forall n d s, controlsInRange s -> controlsInRange (wheels n d s).
Proof.
  induction n as [|n IH]; intros d s H; simpl; auto.
  apply controlsInRange_wheel. now apply IH.
Qed.

Lemma wheel_in_step :
  forall d s,
    controlsInRange s -> d <= 0 ->
    radius (spherical (controls (onMouseWheel d s))) =
    Rmax 10 (radius (spherical (controls s)) * (9/10)).
Proof.
  intros d s (H1 & H2 & _ & _ & H5 & _) Hd. unfold onMouseWheel.
  destruct (cameraFollowMode _); simpl; rewrite H1, H2;
    destruct (Rlt_dec 0 d); try lra;
    rewrite Rmin_right by lra; reflexivity.
Qed.

Lemma wheel_out_step :
  forall d s,
    controlsInRange s -> 0 < d ->
    radius (spherical (controls (onMouseWheel d s))) =
    Rmin 200 (radius (spherical (controls s)) * (11/10)).
Proof.
  intros d s (H1 & H2 & _ & _ & H5 & _) Hd. unfold onMouseWheel.
  destruct (cameraFollowMode _); simpl; rewrite H1, H2;
    destruct (Rlt_dec 0 d); try lra;
    apply Rmax_right; unfold Rmin; destruct (Rle_dec 200 _); lra.
Qed.

Lemma wheels_in_bound :
  forall n d s,
    controlsInRange s -> d <= 0 ->
    radius (spherical (controls (wheels n d s))) <= Rmax 10 (200 * (9/10) ^ n).
Proof.
  induction n as [|n IH]; intros d s H Hd.
  - simpl. destruct H as (_ & _ & _ & _ & H5 & _).
    unfold Rmax. destruct (Rle_dec 10 _); lra.
  - change (wheels (S n) d s) with (onMouseWheel d (wheels n d s)).
    rewrite wheel_in_step by (auto using controlsInRange_wheels).
    specialize (IH d s H Hd). simpl pow.
    set (r := radius (spherical (controls (wheels n d s)))) in *.
    set (q := (9/10) ^ n) in *.
    unfold Rmax in *.
    destruct (Rle_dec 10 (200 * q)); destruct (Rle_dec 10 (r * (9/10)));
      destruct (Rle_dec 10 (200 * (9/10 * q))); lra.
Qed.

Lemma wheels_out_bound :
  forall n d s,
    controlsInRange s -> 0 < d ->
    Rmin 200 (10 * (11/10) ^ n) <= radius (spherical (controls (wheels n d s))).
Proof.
  induction n as [|n IH]; intros d s H Hd.
  - simpl. destruct H as (_ & _ & _ & _ & H5 & _).
    unfold Rmin. destruct (Rle_dec 200 _); lra.
  - change (wheels (S n) d s) with (onMouseWheel d (wheels n d s)).
    rewrite wheel_out_step by (auto using controlsInRange_wheels).
    specialize (IH d s H Hd). simpl pow.
    set (r := radius (spherical (controls (wheels n d s)))) in *.
    set (q := (11/10) ^ n) in *.
    unfold Rmin in *.
    destruct (Rle_dec 200 (10 * q)); destruct (Rle_dec 200 (r * (11/10)));
      destruct (Rle_dec 200 (10 * (11/10 * q))); lra.
Qed.

(** X4. From any state whose controls are within their bounds, hence
    from any state the page can reach, 29 or more wheel events toward
    the scene in a row leave the zoom radius at exactly 10, and 32 or
    more wheel events away from it leave it at exactly 200. *)
Theorem zoom_saturates :
  forall (s : SolarSystem) (n : nat) (d : R),
    controlsInRange s ->
    (d <= 0 -> (29 <= n)%nat ->
     radius (spherical (controls (wheels n d s))) = 10)
    /\ (0 < d -> (32 <= n)%nat ->
        radius (spherical (controls (wheels n d s))) = 200).
Proof.
  intros s n d H. split; intros Hd Hn.
  - pose proof (wheels_in_bound n d s H Hd) as Hb.
    destruct (controlsInRange_wheels n d s H) as (_ & _ & _ & _ & H5 & _).
    replace n with (29 + (n - 29))%nat in Hb at 2 by lia.
    rewrite pow_add in Hb.
    assert (Hk : 0 < (9/10) ^ (n - 29) <= 1).
    { split; [apply pow_lt; lra|].
      rewrite <- (pow1 (n - 29)). apply pow_incr. lra. }
    assert (H29 : 200 * (9/10) ^ 29 < 10) by lra.
    set (q := (9/10) ^ (n - 29)) in *.
    set (a := (9/10) ^ 29) in *.
    assert (Ha : 0 < a) by (apply pow_lt; lra).
    assert (Hq : 200 * (a * q) < 10) by nra.
    rewrite Rmax_left in Hb by lra. lra.
  - pose proof (wheels_out_bound n d s H Hd) as Hb.
    destruct (controlsInRange_wheels n d s H) as (_ & _ & _ & _ & H5 & _).
    replace n with (32 + (n - 32))%nat in Hb at 1 by lia.
    rewrite pow_add in Hb.
    assert (Hk : 1 <= (11/10) ^ (n - 32)).
    { rewrite <- (pow1 (n - 32)). apply pow_incr. lra. }
    assert (H32 : 200 < 10 * (11/10) ^ 32) by lra.
    set (q := (11/10) ^ (n - 32)) in *.
    set (a := (11/10) ^ 32) in *.
    assert (Hq : 200 < 10 * (a * q)) by nra.
    rewrite Rmin_left in Hb by lra. lra.
Qed.

Lemma zoom_saturates_witness :
  radius (spherical (controls (wheels 29 0 firstFrame))) = 10
  /\ radius (spherical (controls (wheels 40 3 sunSelected))) = 200.
Proof.
  split.
  - apply (proj1 (zoom_saturates firstFrame 29 0
                    (controlsInRange_reachable _ (reach_init 0)))).
    + lra.
    + lia.
  - apply (proj2 (zoom_saturates sunSelected 40 3
                    (controlsInRange_reachable _ reachable_sunSelected))).
    + lra.
    + lia.
Defined.

(** *** Dragging along a path *)

Lemma onMouseMove_held :
  forall x y s,
    isMouseDown (controls s) = true ->
    let c := controls s in
    let c' := controls (onMouseMove x y s) in
    isMouseDown c' = true
    /\ mouseX c' = x
    /\ mouseY c' = y
    /\ c_rotationSpeed c' = c_rotationSpeed c
    /\ radius (spherical c') = radius (spherical c)
    /\ theta (spherical c') + x * c_rotationSpeed c =
       theta (spherical c) + mouseX c * c_rotationSpeed c.
Proof.
  intros x y s Hd c c'. subst c c'. unfold onMouseMove, drag. rewrite Hd.
  simpl. destruct (cameraFollowMode s); simpl;
    repeat split; try reflexivity; try exact Hd; ring.
Qed.

(** X5. While the button is held, the azimuth after any path of pointer
    moves is the azimuth before minus the rotation speed times the
    total horizontal displacement of the pointer: it depends on where
    the pointer ends, not on the path.  The path leaves the zoom radius
    as it was and the pointer held. *)
Theorem azimuth_follows_pointer :
  forall (path : list (R * R)) (s : SolarSystem),
    isMouseDown (controls s) = true ->
    let c := controls s in
    let c' := controls (mouseMoves path s) in
    theta (spherical c') =
      theta (spherical c) - (mouseX c' - mouseX c) * c_rotationSpeed c
    /\ (path <> [] -> mouseX c' = fst (last path (0, 0)))
    /\ radius (spherical c') = radius (spherical c)
    /\ isMouseDown c' = true.
Proof.
  induction path as [|[x y] path IH]; intros s Hd c c'; subst c c'.
  - simpl. repeat split; auto; try ring. intros H. now elim H.
  - change (mouseMoves ((x, y) :: path) s)
      with (mouseMoves path (onMouseMove x y s)).
    destruct (onMouseMove_held x y s Hd) as (D & X & Y & S & Rd & T).
    destruct (IH (onMouseMove x y s) D) as (IT & IL & IR & ID).
    rewrite IT, IR, S, X, Rd. repeat split; auto.
    + simpl fst in T. lra.
    + intros _. destruct path as [|q path].
      * simpl. exact X.
      * rewrite IL by discriminate. reflexivity.
Qed.

Lemma azimuth_follows_pointer_witness :
  let c := controls earthFocusedHeld in
  let c' := controls (mouseMoves [(30, 5); (-10, 400); (100, 0)] earthFocusedHeld) in
  theta (spherical c') =
    theta (spherical c) - (mouseX c' - mouseX c) * c_rotationSpeed c
  /\ (([(30, 5); (-10, 400); (100, 0)] : list (R * R)) <> [] ->
      mouseX c' = fst (last [(30, 5); (-10, 400); (100, 0)] (0, 0)))
  /\ radius (spherical c') = radius (spherical c)
  /\ isMouseDown c' = true.
Proof.
  exact (azimuth_follows_pointer [(30, 5); (-10, 400); (100, 0)]
           earthFocusedHeld eq_refl).
Defined.

(** *** Leaving a focus *)

(** X6. The close button of the overlay and the reset button do the same
    thing: from every state their listeners give the same state, though
    they run their steps in a different order. *)
Theorem close_is_reset :
  forall s : SolarSystem, closeInfoClick s = resetClick s.
Proof.
  intros s. reflexivity.
Qed.

(** *** Frames without follow mode *)

Lemma follow_off : forall s, cameraFollowMode s = false -> follow s = s.
Proof.
  intros s F. unfold follow. now rewrite F.
Qed.

Lemma camera_animate_follow_off :
  forall t s, cameraFollowMode s = false -> camera (animate t s) = camera s.
Proof.
  intros t s F. unfold animate. destruct (isPaused s).
  - now rewrite follow_off.
  - rewrite follow_off; reflexivity || exact F.
Qed.

Lemma pauseClick_twice : forall s, pauseClick (pauseClick s) = s.
Proof.
  intros [p g pl sn st c cam d cur f info tw]. unfold pauseClick. simpl.
  now rewrite negb_involutive.
Qed.

Lemma tween_animate_follow_off :
  forall t s, cameraFollowMode s = false -> tween (animate t s) = tween s.
Proof.
  intros t s F. unfold animate. destruct (isPaused s).
  - now rewrite follow_off.
  - rewrite follow_off; reflexivity || exact F.
Qed.

Lemma paused_frames_follow_off :
  forall (clock : list R) (s : SolarSystem),
    cameraFollowMode s = false -> isPaused s = true -> frames clock s = s.
Proof.
  induction clock as [|t c IH]; intros s0 F0 P0; [reflexivity|].
  rewrite frames_cons. unfold animate. rewrite P0, follow_off by exact F0.
  now apply IH.
Qed.

(** X7. With the follow mode off and no camera transition in flight,
    frames neither write the camera nor start a transition, whether the
    simulation runs or not. If the simulation is also paused, frames
    leave the pause flag, the speed multiplier, the registry, the Sun,
    the star field, the controls, the camera, the default camera
    position, the focus, the follow flag and the overlay as they are,
    so that pausing, letting any number of frames pass and resuming
    gives back each of them as it was before the pause. (The handle
    [animationId] of the frame request, which every frame assigns, and
    the clock, which every frame reads, are no part of this state.) *)
Theorem frames_without_follow_spare_camera :
  forall (clock : list R) (s : SolarSystem),
    cameraFollowMode s = false ->
    tween s = None ->
    camera (frames clock s) = camera s
    /\ tween (frames clock s) = None
    /\ (isPaused s = true ->
        isPaused (frames clock s) = isPaused s
        /\ globalSpeedMultiplier (frames clock s) = globalSpeedMultiplier s
        /\ planets (frames clock s) = planets s
        /\ sun (frames clock s) = sun s
        /\ stars (frames clock s) = stars s
        /\ controls (frames clock s) = controls s
        /\ camera (frames clock s) = camera s
        /\ defaultCameraPosition (frames clock s) = defaultCameraPosition s
        /\ currentFocusedPlanet (frames clock s) = currentFocusedPlanet s
        /\ cameraFollowMode (frames clock s) = cameraFollowMode s
        /\ planetInfo (frames clock s) = planetInfo s)
    /\ (isPaused s = false ->
        isPaused (frames clock (pauseClick s)) = true
        /\ isPaused (pauseClick (frames clock (pauseClick s))) = isPaused s
        /\ globalSpeedMultiplier (pauseClick (frames clock (pauseClick s))) = globalSpeedMultiplier s
        /\ planets (pauseClick (frames clock (pauseClick s))) = planets s
        /\ sun (pauseClick (frames clock (pauseClick s))) = sun s
        /\ stars (pauseClick (frames clock (pauseClick s))) = stars s
        /\ controls (pauseClick (frames clock (pauseClick s))) = controls s
        /\ camera (pauseClick (frames clock (pauseClick s))) = camera s
        /\ defaultCameraPosition (pauseClick (frames clock (pauseClick s))) = defaultCameraPosition s
        /\ currentFocusedPlanet (pauseClick (frames clock (pauseClick s))) = currentFocusedPlanet s
        /\ cameraFollowMode (pauseClick (frames clock (pauseClick s))) = cameraFollowMode s
        /\ planetInfo (pauseClick (frames clock (pauseClick s))) = planetInfo s).
Proof.
  intros clock s F T.
  split; [|split; [|split]].
  - revert s F T. induction clock as [|t clock IH]; intros s F T; [reflexivity|].
    rewrite frames_cons.
    destruct (animate_keeps t s) as (_ & _ & _ & _ & M & _).
    rewrite IH.
    + now apply camera_animate_follow_off.
    + now rewrite M.
    + now rewrite tween_animate_follow_off.
  - revert s F T. induction clock as [|t clock IH]; intros s F T; [exact T|].
    rewrite frames_cons.
    destruct (animate_keeps t s) as (_ & _ & _ & _ & M & _).
    apply IH.
    + now rewrite M.
    + now rewrite tween_animate_follow_off.
  - intros P. rewrite (paused_frames_follow_off clock s F P).
    repeat split; reflexivity.
  - intros P.
    assert (P' : isPaused (pauseClick s) = true)
      by (unfold pauseClick; simpl; now rewrite P).
    rewrite (paused_frames_follow_off clock (pauseClick s) F P').
    rewrite pauseClick_twice.
    split; [exact P'|]. repeat split; reflexivity.
Qed.

Lemma frames_without_follow_spare_camera_witness :
  (camera (frames [1; 2; 3] sunSettled) = camera sunSettled
   /\ tween (frames [1; 2; 3] sunSettled) = None)
  /\ (isPaused (frames [1; 2; 3] (pauseClick sunSettled)) = isPaused (pauseClick sunSettled)
      /\ globalSpeedMultiplier (frames [1; 2; 3] (pauseClick sunSettled)) = globalSpeedMultiplier (pauseClick sunSettled)
      /\ planets (frames [1; 2; 3] (pauseClick sunSettled)) = planets (pauseClick sunSettled)
      /\ sun (frames [1; 2; 3] (pauseClick sunSettled)) = sun (pauseClick sunSettled)
      /\ stars (frames [1; 2; 3] (pauseClick sunSettled)) = stars (pauseClick sunSettled)
      /\ controls (frames [1; 2; 3] (pauseClick sunSettled)) = controls (pauseClick sunSettled)
      /\ camera (frames [1; 2; 3] (pauseClick sunSettled)) = camera (pauseClick sunSettled)
      /\ defaultCameraPosition (frames [1; 2; 3] (pauseClick sunSettled)) = defaultCameraPosition (pauseClick sunSettled)
      /\ currentFocusedPlanet (frames [1; 2; 3] (pauseClick sunSettled)) = currentFocusedPlanet (pauseClick sunSettled)
      /\ cameraFollowMode (frames [1; 2; 3] (pauseClick sunSettled)) = cameraFollowMode (pauseClick sunSettled)
      /\ planetInfo (frames [1; 2; 3] (pauseClick sunSettled)) = planetInfo (pauseClick sunSettled))
  /\ (isPaused (frames [1; 2; 3] (pauseClick sunSettled)) = true
      /\ isPaused (pauseClick (frames [1; 2; 3] (pauseClick sunSettled))) = isPaused sunSettled
      /\ globalSpeedMultiplier (pauseClick (frames [1; 2; 3] (pauseClick sunSettled))) = globalSpeedMultiplier sunSettled
      /\ planets (pauseClick (frames [1; 2; 3] (pauseClick sunSettled))) = planets sunSettled
      /\ sun (pauseClick (frames [1; 2; 3] (pauseClick sunSettled))) = sun sunSettled
      /\ stars (pauseClick (frames [1; 2; 3] (pauseClick sunSettled))) = stars sunSettled
      /\ controls (pauseClick (frames [1; 2; 3] (pauseClick sunSettled))) = controls sunSettled
      /\ camera (pauseClick (frames [1; 2; 3] (pauseClick sunSettled))) = camera sunSettled
      /\ defaultCameraPosition (pauseClick (frames [1; 2; 3] (pauseClick sunSettled))) = defaultCameraPosition sunSettled
      /\ currentFocusedPlanet (pauseClick (frames [1; 2; 3] (pauseClick sunSettled))) = currentFocusedPlanet sunSettled
      /\ cameraFollowMode (pauseClick (frames [1; 2; 3] (pauseClick sunSettled))) = cameraFollowMode sunSettled
      /\ planetInfo (pauseClick (frames [1; 2; 3] (pauseClick sunSettled))) = planetInfo sunSettled).
Proof.
  pose proof (frames_without_follow_spare_camera [1; 2; 3] sunSettled
                eq_refl eq_refl) as H.
  pose proof (frames_without_follow_spare_camera [1; 2; 3]
                (pauseClick sunSettled) eq_refl eq_refl) as K.
  split; [|split].
  - exact (conj (proj1 H) (proj1 (proj2 H))).
  - exact (proj1 (proj2 (proj2 K)) eq_refl).
  - exact (proj2 (proj2 (proj2 H)) eq_refl).
Defined.

(** *** Showing and hiding the overlay *)

Lemma planetInfo_checkPlanetClick_shown :
  forall h s,
    active (planetInfo s) = true ->
    active (planetInfo (checkPlanetClick h s)) = true.
Proof.
  intros [[|i|]|] s H; simpl; auto.
  destruct (nth_error (planets s) i); auto.
Qed.

Lemma checkPlanetClick_shows :
  forall h s,
    active (planetInfo s) = false ->
    active (planetInfo (checkPlanetClick h s)) = true ->
    h = Some HitSun
    \/ exists i p, h = Some (HitMesh i) /\ nth_error (planets s) i = Some p.
Proof.
  intros [[|i|]|] s H H'; simpl in H'; try congruence.
  - now left.
  - right. destruct (nth_error (planets s) i) as [p|] eqn:E.
    + now exists i, p.
    + congruence.
Qed.

(** X8. The overlay is hidden by the reset button and the close button
    only: every other event leaves a shown overlay shown.  It is shown
    by a click or a tap that hits the Sun or the mesh of a planet only:
    a hit on nothing or on a child object shows nothing. *)
Theorem overlay_shown_and_hidden_by :
  forall (e : Event) (s : SolarSystem),
    (hidesOverlay e = false ->
     active (planetInfo s) = true ->
     active (planetInfo (handle e s)) = true)
    /\ (active (planetInfo s) = false ->
        active (planetInfo (handle e s)) = true ->
        exists h,
          (e = Click (Some h) \/ exists n, e = TouchEnd n (Some h))
          /\ (h = HitSun
              \/ exists i p, h = HitMesh i
                             /\ nth_error (planets s) i = Some p)).
Proof.
  intros e s. split.
  - intros He Ha. destruct (keepsFocus e) eqn:K.
    + destruct (handle_keepsFocus e s K) as (_ & _ & I). now rewrite I.
    + destruct e; try discriminate K; try discriminate He; simpl.
      * now apply planetInfo_checkPlanetClick_shown.
      * unfold onTouchEndEvent. destruct (_ && _)%bool; auto.
        now apply planetInfo_checkPlanetClick_shown.
  - intros Ha Ha'. destruct (keepsFocus e) eqn:K.
    + destruct (handle_keepsFocus e s K) as (_ & _ & I).
      rewrite I in Ha'. congruence.
    + destruct e; try discriminate K; simpl in Ha'; try discriminate Ha'.
      * destruct (checkPlanetClick_shows intersects s Ha Ha')
          as [->|(i & p & -> & Hp)].
        -- exists HitSun. split; [now left|now left].
        -- exists (HitMesh i). split; [now left|]. right. now exists i, p.
      * unfold onTouchEndEvent in Ha'.
        destruct (_ && _)%bool; [|simpl in Ha'; congruence].
        destruct (checkPlanetClick_shows intersects (onMouseUp s) Ha Ha')
          as [->|(i & p & -> & Hp)].
        -- exists HitSun. split; [right; now exists changedTouches|now left].
        -- exists (HitMesh i).
           split; [right; now exists changedTouches|].
           right. now exists i, p.
Qed.

Lemma overlay_shown_and_hidden_by_witness :
  active (planetInfo (handle (Wheel 1) sunSelected)) = true
  /\ exists h,
       (Click (Some (HitMesh 3)) = Click (Some h)
        \/ exists n, Click (Some (HitMesh 3)) = TouchEnd n (Some h))
       /\ (h = HitSun
           \/ exists i p, h = HitMesh i
                          /\ nth_error (planets firstFrame) i = Some p).
Proof.
  split.
  - exact (proj1 (overlay_shown_and_hidden_by (Wheel 1) sunSelected)
             eq_refl eq_refl).
  - exact (proj2 (overlay_shown_and_hidden_by (Click (Some (HitMesh 3)))
                    firstFrame) eq_refl eq_refl).
Defined.

(** *** Spin *)

Lemma frames_running_spin :
  forall clock s i p,
    isPaused s = false ->
    nth_error (planets s) i = Some p ->
    exists p',
      nth_error (planets (frames clock s)) i = Some p'
      /\ rotation_y (mesh p') =
         rotation_y (mesh p) + INR (List.length clock) * rotationSpeed p
      /\ rotationSpeed p' = rotationSpeed p.
Proof.
  induction clock as [|t clock IH]; intros s i p Hrun Hp.
  - exists p. simpl. repeat split; auto; lra.
  - rewrite frames_cons.
    destruct (animate_keeps t s) as (P & _).
    destruct (IH (animate t s) i (updatePlanet t (globalSpeedMultiplier s) p))
      as (p' & Hn & Hr & Hs).
    + now rewrite P.
    + rewrite (planets_animate_running t s Hrun), nth_error_map, Hp.
      reflexivity.
    + exists p'. split; [exact Hn|]. rewrite Hr, Hs.
      change (List.length (t :: clock)) with (S (List.length clock)).
      rewrite S_INR. simpl. split; [lra|reflexivity].
Qed.

Lemma frames_running_sun_stars :
  forall clock s,
    isPaused s = false ->
    (forall sn, sun s = Some sn ->
       exists sn', sun (frames clock s) = Some sn'
                   /\ sun_rotation_y sn' =
                      sun_rotation_y sn + INR (List.length clock) * (5/1000))
    /\ (forall r, stars s = Some r ->
          stars (frames clock s) =
          Some (r + INR (List.length clock) * (2/10000))).
Proof.
  induction clock as [|t clock IH]; intros s Hrun.
  - split.
    + intros sn H. exists sn. simpl. split; [exact H|lra].
    + intros r H. simpl. rewrite H. f_equal. lra.
  - rewrite frames_cons.
    destruct (animate_keeps t s) as (P & _).
    destruct (animate_running_bodies t s Hrun) as (_ & Sn & St).
    destruct (IH (animate t s)) as (IS & IT); [now rewrite P|].
    change (List.length (t :: clock)) with (S (List.length clock)).
    rewrite S_INR. split.
    + intros sn H. rewrite H in Sn. simpl in Sn.
      destruct (IS _ Sn) as (sn' & E & R').
      exists sn'. split; [exact E|]. rewrite R'. simpl. lra.
    + intros r H. rewrite H in St. simpl in St.
      rewrite (IT _ St). f_equal. lra.
Qed.

(** X9. In the running simulation the spin of a planet grows by its
    [rotationSpeed] per frame, the spin of the Sun by 0.005 and the
    rotation of the star field by 0.0002, whatever the value given to the
    speed slider of the planet and whatever the global multiplier: the
    sliders scale the orbits only. *)
Theorem spin_ignores_speed_controls :
  forall (s : SolarSystem) (i : nat) (p : Planet) (m : R) (clock : list R),
    isPaused s = false ->
    nth_error (planets s) i = Some p ->
    let s' := frames clock (sliderInput i m s) in
    (exists p',
        nth_error (planets s') i = Some p'
        /\ rotation_y (mesh p') =
           rotation_y (mesh p) + INR (List.length clock) * rotationSpeed p)
    /\ (forall sn, sun s = Some sn ->
          exists sn', sun s' = Some sn'
                      /\ sun_rotation_y sn' =
                         sun_rotation_y sn + INR (List.length clock) * (5/1000))
    /\ (forall r, stars s = Some r ->
          stars s' = Some (r + INR (List.length clock) * (2/10000))).
Proof.
  intros s i p m clock Hrun Hp s'. subst s'.
  assert (H0 : nth_error (planets (sliderInput i m s)) i
               = Some (set_speed (baseSpeed p * m) p)).
  { unfold sliderInput. simpl. rewrite nth_error_updateAt_same, Hp.
    reflexivity. }
  destruct (frames_running_spin clock (sliderInput i m s) i _ Hrun H0)
    as (p' & Hn & Hr & _).
  destruct (frames_running_sun_stars clock (sliderInput i m s) Hrun)
    as (HS & HT).
  split; [|split].
  - exists p'. split; [exact Hn|exact Hr].
  - exact HS.
  - exact HT.
Qed.

Lemma spin_ignores_speed_controls_witness :
  let s' := frames [0; 1; 2; 3] (sliderInput 5 0 firstFrame) in
  (exists p',
      nth_error (planets s') 5 = Some p'
      /\ rotation_y (mesh p') =
         (0 + 18/1000) + INR 4 * (18/1000))
  /\ (forall sn, sun firstFrame = Some sn ->
        exists sn', sun s' = Some sn'
                    /\ sun_rotation_y sn' = sun_rotation_y sn + INR 4 * (5/1000))
  /\ (forall r, stars firstFrame = Some r ->
        stars s' = Some (r + INR 4 * (2/10000))).
Proof.
  exact (spin_ignores_speed_controls firstFrame 5
           (updatePlanet 0 1
              (newPlanet (mkPlanetData "Saturn" (48/10) 16429691%N 36
                            (4/10000) (18/1000)) 5))
           0 [0; 1; 2; 3] eq_refl eq_refl).
Defined.

(** *** The time uniforms *)

Lemma uniformsAt_running_frame :
  forall t t0 s, isPaused s = false -> uniformsAt t0 s ->
                 uniformsAt t (animate t s).
Proof.
  intros t t0 s Hrun (HF & sn & Hs & _).
  destruct (animate_running_bodies t s Hrun) as (Pl & Sn & _).
  split.
  - rewrite Pl.
    apply Forall_map_same with (Q := materialAt t0); [|exact HF].
    intros p [[Hn H]|[Hn H]]; unfold materialAt; simpl; rewrite H; simpl;
      [left|right]; split; auto.
  - rewrite Sn, Hs. simpl. eexists. split; reflexivity.
Qed.

Lemma sun_handle_not_frame :
  forall e s, (forall t, e <> Frame t) -> sun (handle e s) = sun s.
Proof.
  intros e s H. destruct e; simpl; try reflexivity.
  - now elim (H elapsedTime).
  - unfold onMouseMove, drag. destruct (isMouseDown _); auto.
    destruct (cameraFollowMode _); reflexivity.
  - unfold onMouseWheel. destruct (cameraFollowMode _); reflexivity.
  - destruct intersects as [[|i|]|]; simpl; auto.
    destruct (nth_error _ i); reflexivity.
  - unfold onTouchStart. destruct touches as [|[x y] [|]]; reflexivity.
  - unfold onTouchMove, drag. destruct touches as [|[x y] [|]]; auto.
    destruct (isMouseDown _); auto.
    destruct (cameraFollowMode _); reflexivity.
  - unfold onTouchEndEvent. destruct (_ && _)%bool; auto.
    destruct intersects as [[|i|]|]; simpl; auto.
    destruct (nth_error _ i); reflexivity.
  - unfold onWindowResize. destruct (stars s); reflexivity.
  - apply (tweenUpdate_keeps point s).
  - apply (tweenComplete_keeps s).
Qed.

Lemma planets_handle_not_frame :
  forall e s,
    (forall t, e <> Frame t) ->
    planets (handle e s) = planets s
    \/ exists i m,
         planets (handle e s) =
         updateAt i (fun p => set_speed (baseSpeed p * m) p) (planets s).
Proof.
  intros e s H.
  destruct e; try (left; reflexivity); simpl.
  - now elim (H elapsedTime).
  - left. unfold onMouseMove.
    destruct (isMouseDown (controls s)); [apply planets_drag|reflexivity].
  - left. unfold onMouseWheel. simpl.
    destruct (cameraFollowMode s); reflexivity.
  - left. apply planets_checkPlanetClick.
  - left. unfold onTouchStart.
    destruct touches as [|[x y] [|]]; reflexivity.
  - left. unfold onTouchMove.
    destruct touches as [|[x y] [|]]; try reflexivity.
    destruct (isMouseDown (controls s)); [apply planets_drag|reflexivity].
  - left. unfold onTouchEndEvent.
    destruct (_ && _)%bool; [now rewrite planets_checkPlanetClick|reflexivity].
  - left. unfold onWindowResize. destruct (stars s); reflexivity.
  - right. exists index, multiplier. reflexivity.
  - left. apply (tweenUpdate_keeps point s).
  - left. apply (tweenComplete_keeps s).
Qed.

Lemma uniformsAt_handle_not_frame :
  forall e s t,
    (forall t', e <> Frame t') -> uniformsAt t s -> uniformsAt t (handle e s).
Proof.
  intros e s t H (HF & HS). split.
  - destruct (planets_handle_not_frame e s H) as [E|(i & m & E)]; rewrite E.
    + exact HF.
    + apply Forall_updateAt; [|exact HF]. intros p Hp. exact Hp.
  - now rewrite sun_handle_not_frame.
Qed.

Lemma uniforms_reachable :
  forall s, Reachable s -> exists t, uniformsAt t s.
Proof.
  induction 1 as [t|e s _ (t0 & IH)].
  - exists t. apply (uniformsAt_running_frame t 0); [reflexivity|].
    split.
    + rewrite planets_boot. unfold planetData. simpl.
      repeat (apply Forall_cons;
              [unfold materialAt; simpl;
               first [left; split; reflexivity
                     |right; split; [discriminate|reflexivity]]|]).
      apply Forall_nil.
    + exists (mkSun 0 0). split; reflexivity.
  - destruct e;
      try (exists t0; apply uniformsAt_handle_not_frame;
           [discriminate|exact IH]).
    destruct (isPaused s) eqn:P.
    + exists t0. destruct IH as (HF & HS).
      destruct (animate_paused_bodies elapsedTime s P) as (A & B & _).
      split; simpl; [now rewrite A|now rewrite B].
    + exists elapsedTime. now apply (uniformsAt_running_frame _ t0).
Qed.

(** X10. In every state the page can reach, there is one clock reading
    that is the [time] uniform of the Sun and of the shader material of
    every planet other than Saturn, and Saturn still has its Phong
    material, which has no uniforms. *)
Theorem time_uniforms_agree :
  forall s : SolarSystem,
    Reachable s ->
    exists t : R,
      (forall p, In p (planets s) ->
         (name p = "Saturn" -> material p = MeshPhongMaterial)
         /\ (name p <> "Saturn" -> material p = ShaderMaterial t))
      /\ exists sn, sun s = Some sn /\ sun_time sn = t.
Proof.
  intros s Hs. destruct (uniforms_reachable s Hs) as (t & HF & HS).
  exists t. split; [|exact HS].
  intros p Hp. rewrite Forall_forall in HF.
  destruct (HF p Hp) as [[Hn H]|[Hn H]]; split; intros Hn'; auto;
    contradiction.
Qed.

Lemma time_uniforms_agree_witness :
  exists t : R,
    (forall p, In p (planets jupiterFollowedPaused) ->
       (name p = "Saturn" -> material p = MeshPhongMaterial)
       /\ (name p <> "Saturn" -> material p = ShaderMaterial t))
    /\ exists sn, sun jupiterFollowedPaused = Some sn /\ sun_time sn = t.
Proof.
  exact (time_uniforms_agree jupiterFollowedPaused
           (reach_step (Click (Some (HitMesh 4))) _
              (reach_step PauseClick _ (reach_init 0)))).
Defined.

(** *** The sliders *)

Lemma updateAt_twice :
  forall (A : Type) (f g : A -> A) (l : list A) (i : nat),
    updateAt i f (updateAt i g l) = updateAt i (fun a => f (g a)) l.
Proof.
  intros A f g. induction l as [|a l IH]; intros [|i]; simpl;
    try reflexivity.
  now rewrite IH.
Qed.

Lemma updateAt_commute :
  forall (A : Type) (f g : A -> A) (l : list A) (i j : nat),
    i <> j ->
    updateAt i f (updateAt j g l) = updateAt j g (updateAt i f l).
Proof.
  intros A f g. induction l as [|a l IH]; intros [|i] [|j] H; simpl;
    try reflexivity; try (now elim H).
  rewrite IH; [reflexivity|lia].
Qed.

(** X11. The value of a slider is not cumulative: setting the slider of
    a planet to [m1] and then to [m2] gives the same state as setting it
    to [m2] at once, because the listener scales the stored [baseSpeed].
    Sliders of different planets commute, and a slider changes nothing
    of its planet but [speed]. *)
Theorem slider_last_value_wins :
  forall (s : SolarSystem) (i j : nat) (m1 m2 : R),
    sliderInput i m2 (sliderInput i m1 s) = sliderInput i m2 s
    /\ (i <> j ->
        sliderInput i m1 (sliderInput j m2 s) =
        sliderInput j m2 (sliderInput i m1 s))
    /\ (forall p, nth_error (planets s) i = Some p ->
          exists p',
            nth_error (planets (sliderInput i m1 s)) i = Some p'
            /\ speed p' = baseSpeed p * m1
            /\ baseSpeed p' = baseSpeed p
            /\ angle p' = angle p
            /\ mesh p' = mesh p
            /\ material p' = material p).
Proof.
  intros s i j m1 m2. unfold sliderInput, set_planets. simpl.
  split; [|split].
  - now rewrite updateAt_twice.
  - intros H. now rewrite updateAt_commute.
  - intros p Hp. rewrite nth_error_updateAt_same, Hp. simpl.
    eexists. repeat split.
Qed.

Lemma slider_last_value_wins_witness :
  sliderInput 2 3 (sliderInput 2 (1/2) firstFrame) = sliderInput 2 3 firstFrame
  /\ sliderInput 2 3 (sliderInput 6 0 firstFrame) =
     sliderInput 6 0 (sliderInput 2 3 firstFrame).
Proof.
  split.
  - exact (proj1 (slider_last_value_wins firstFrame 2 6 (1/2) 3)).
  - apply (proj1 (proj2 (slider_last_value_wins firstFrame 2 6 3 0))).
    discriminate.
Defined.

(** *** The registry is fixed *)

Lemma map_descriptorOf_newPlanetsFrom :
  forall data i, map descriptorOf (newPlanetsFrom i data) = data.
Proof.
  induction data as [|[n r c o sp rs] data IH]; intros i; simpl;
    [reflexivity|].
  now rewrite IH.
Qed.

Lemma map_descriptorOf_updateAt :
  forall (f : Planet -> Planet),
    (forall p, descriptorOf (f p) = descriptorOf p) ->
    forall l i, map descriptorOf (updateAt i f l) = map descriptorOf l.
Proof.
  intros f Hf. induction l as [|a l IH]; intros [|i]; simpl;
    try reflexivity.
  - now rewrite Hf.
  - now rewrite IH.
Qed.

Lemma descriptors_handle :
  forall e s, map descriptorOf (planets (handle e s)) =
              map descriptorOf (planets s).
Proof.
  intros e s.
  destruct (planets_handle_cases e s) as [E|[(t & _ & E)|(i & m & E)]];
    rewrite E.
  - reflexivity.
  - rewrite map_map. apply map_ext. reflexivity.
  - apply map_descriptorOf_updateAt. reflexivity.
Qed.

Lemma descriptors_reachable :
  forall s, Reachable s -> map descriptorOf (planets s) = planetData.
Proof.
  induction 1 as [t|e s _ IH].
  - rewrite planets_animate_running by reflexivity.
    rewrite map_map, planets_boot.
    rewrite <- (map_descriptorOf_newPlanetsFrom planetData 0) at 2.
    apply map_ext. reflexivity.
  - now rewrite descriptors_handle.
Qed.

(** X12. Reading the descriptor fields back from the planets that
    [createSolarSystem] builds gives the list of descriptors it was
    given, in order.  In every state the page can reach these fields are
    those of the eight authored planets: no event adds, removes or
    reorders a planet, or changes its name, radius, colour, orbit radius,
    base speed or spin speed. *)
Theorem registry_is_fixed :
  (forall (data : list PlanetData) (s : SolarSystem),
      planets s = [] ->
      map descriptorOf (planets (createSolarSystemWith data s)) = data)
  /\ (forall s : SolarSystem,
        Reachable s ->
        map descriptorOf (planets s) = planetData
        /\ List.length (planets s) = 8%nat).
Proof.
  split.
  - intros data s Hs. rewrite planets_createSolarSystemWith, Hs. simpl.
    apply map_descriptorOf_newPlanetsFrom.
  - intros s Hs. pose proof (descriptors_reachable s Hs) as H.
    split; [exact H|].
    rewrite <- (length_map descriptorOf), H. reflexivity.
Qed.

Lemma registry_is_fixed_witness :
  map descriptorOf (planets (createSolarSystemWith planetData constructor))
  = planetData
  /\ map descriptorOf (planets earthFocusedHeld) = planetData
  /\ List.length (planets earthFocusedHeld) = 8%nat.
Proof.
  split.
  - exact (proj1 registry_is_fixed planetData constructor eq_refl).
  - exact (proj2 registry_is_fixed earthFocusedHeld
             (reach_step (MouseDown 0 0) _
                (reach_step (Click (Some (HitMesh 2))) _ (reach_init 0)))).
Defined.

(** *** Taps *)

(** X13. When one touch ends, the tap listener always tests the hit,
    also when the finger was dragging: [onTouchEnd] has released the
    pointer before the listener looks at it.  So lifting the finger over
    the mesh of a planet focuses that planet.  When another number of
    touches ends, the pointer is released and nothing else happens. *)
Theorem tap_is_tested_after_drag :
  forall (s : SolarSystem) (h : option Hit) (n : nat),
    onTouchEndEvent 1 h s = checkPlanetClick h (onMouseUp s)
    /\ (n <> 1%nat -> onTouchEndEvent n h s = onMouseUp s)
    /\ (forall i p,
          nth_error (planets s) i = Some p ->
          currentFocusedPlanet (onTouchEndEvent 1 (Some (HitMesh i)) s) = Some i
          /\ cameraFollowMode (onTouchEndEvent 1 (Some (HitMesh i)) s) = true
          /\ isMouseDown (controls (onTouchEndEvent 1 (Some (HitMesh i)) s))
             = false).
Proof.
  intros s h n. split; [reflexivity|]. split.
  - intros Hn. unfold onTouchEndEvent.
    destruct (Nat.eqb_spec n 1); [contradiction|reflexivity].
  - intros i p Hp. unfold onTouchEndEvent. simpl. rewrite Hp.
    repeat split.
Qed.

Lemma tap_is_tested_after_drag_witness :
  onTouchEndEvent 2 (Some HitSun) earthFocusedHeld = onMouseUp earthFocusedHeld
  /\ currentFocusedPlanet
       (onTouchEndEvent 1 (Some (HitMesh 7)) earthFocusedHeld) = Some 7%nat
  /\ cameraFollowMode
       (onTouchEndEvent 1 (Some (HitMesh 7)) earthFocusedHeld) = true
  /\ isMouseDown
       (controls (onTouchEndEvent 1 (Some (HitMesh 7)) earthFocusedHeld))
     = false.
Proof.
  split.
  - apply (proj1 (proj2 (tap_is_tested_after_drag earthFocusedHeld
                           (Some HitSun) 2))).
    discriminate.
  - exact (proj2 (proj2 (tap_is_tested_after_drag earthFocusedHeld None 0))
             7%nat
             (updatePlanet 0 1
                (newPlanet (mkPlanetData "Neptune" (31/10) 4944093%N 50
                              (8/100000) (16/1000)) 7))
             eq_refl).
Defined.

(** *** The follow point *)

Lemma lengthSq_applyRotationY :
  forall a v, lengthSq (applyRotationY a v) = lengthSq v.
Proof.
  intros a [x y z]. unfold lengthSq, applyRotationY. simpl.
  pose proof (sin2_cos2 a) as H. unfold Rsqr in H.
  replace ((cos a * x + sin a * z) * (cos a * x + sin a * z) + y * y
           + (- sin a * x + cos a * z) * (- sin a * x + cos a * z))
    with ((sin a * sin a + cos a * cos a) * (x * x + z * z) + y * y) by ring.
  rewrite H. ring.
Qed.

(** X14. The point the follow code steers the camera to lies at a
    distance from the centre of the planet that does not depend on the
    orbital angle, its square being 47.25 times the squared radius of the
    planet, and 2.5 radii higher than the centre. *)
Theorem follow_point_distance :
  forall p : Planet,
    let r := geometry_radius (mesh p) in
    distanceToSquared (targetCameraPosition p) (position (mesh p)) =
      (4725/100) * (r * r)
    /\ vy (targetCameraPosition p) = vy (position (mesh p)) + (25/10) * r.
Proof.
  intros p r. subst r. split.
  - unfold distanceToSquared, targetCameraPosition.
    replace (sub (add (position (mesh p)) (cameraOffset p)) (position (mesh p)))
      with (cameraOffset p).
    + unfold cameraOffset. rewrite lengthSq_applyRotationY.
      unfold lengthSq. simpl. field.
    + destruct (position (mesh p)) as [x y z].
      destruct (cameraOffset p) as [a b c].
      unfold sub, add. simpl. f_equal; ring.
  - unfold targetCameraPosition, cameraOffset, add, applyRotationY. simpl.
    field.
Qed.

(** X15. The camera transition that [focusOnPlanet] asks for never ends
    at the point the follow code steers to: for a planet of positive
    radius [r], with [d = 5 r], the squared distance between the two
    points is [d * d * (2.64 - 2 cos angle + 1.6 sin angle)], which is
    more than [0.07 * d * d] at every angle. *)
Theorem transition_misses_follow_point :
  forall (i : nat) (p : Planet) (s : SolarSystem),
    0 < geometry_radius (mesh p) ->
    let d := geometry_radius (mesh p) * 5 in
    exists tw,
      tween (focusOnPlanet i p s) = Some tw
      /\ tw_look tw = LookPlanet i
      /\ distanceToSquared (tw_to tw) (targetCameraPosition p) =
         d * d * (264/100 - 2 * cos (angle p) + (16/10) * sin (angle p))
      /\ (7/100) * (d * d)
         < distanceToSquared (tw_to tw) (targetCameraPosition p).
Proof.
  intros i p s Hr d. eexists. split; [reflexivity|]. split; [reflexivity|].
  assert (E : distanceToSquared
                (tw_to (mkTween 2
                  (mkVector3 (vx (position (mesh p)))
                     (vy (position (mesh p)) + geometry_radius (mesh p) * 5 * (5/10))
                     (vz (position (mesh p)) + geometry_radius (mesh p) * 5))
                  (LookPlanet i)))
                (targetCameraPosition p) =
              d * d * (264/100 - 2 * cos (angle p) + (16/10) * sin (angle p))).
  { unfold distanceToSquared, targetCameraPosition, cameraOffset,
      applyRotationY, lengthSq, sub, add. simpl. subst d.
    pose proof (sin2_cos2 (angle p)) as H. unfold Rsqr in H.
    set (c := cos (angle p)) in *. set (sn := sin (angle p)) in *.
    set (r := geometry_radius (mesh p)) in *.
    replace (264/100 - 2 * c + 16/10 * sn)
      with (164/100 * (sn * sn + c * c) + 1 - 2 * c + 16/10 * sn)
      by (rewrite H; field).
    field. }
  split; [exact E|].
  simpl tw_to in E |- *. rewrite E.
  pose proof (sin2_cos2 (angle p)) as H. unfold Rsqr in H.
  set (c := cos (angle p)) in *. set (sn := sin (angle p)) in *.
  assert (Hd : 0 < d * d) by (subst d; nra).
  assert (Hb : 2 * c - (16/10) * sn < 2565/1000).
  { assert (Hsq : (2 * c - (16/10) * sn) * (2 * c - (16/10) * sn)
                  + ((16/10) * c + 2 * sn) * ((16/10) * c + 2 * sn)
                  = 656/100).
    { replace (656/100) with (656/100 * (sn * sn + c * c)) by (rewrite H; lra).
      field. }
    set (X := 2 * c - (16/10) * sn) in *.
    set (Y := (16/10) * c + 2 * sn) in *.
    destruct (Rlt_dec X (2565/1000)) as [Hlt|Hge]; [exact Hlt|].
    exfalso.
    assert (HX : (2565/1000) * (2565/1000) <= X * X) by nra.
    assert (HY : 0 <= Y * Y) by nra.
    lra. }
  apply Rlt_le_trans with (d * d * (264/100 - 2565/1000)); [lra|].
  apply Rmult_le_compat_l; lra.
Qed.

Lemma transition_misses_follow_point_witness :
  let d := geometry_radius (mesh jupiterAfterFirstFrame) * 5 in
  exists tw,
    tween (focusOnPlanet 4 jupiterAfterFirstFrame firstFrame) = Some tw
    /\ tw_look tw = LookPlanet 4
    /\ distanceToSquared (tw_to tw) (targetCameraPosition jupiterAfterFirstFrame) =
       d * d * (264/100 - 2 * cos (angle jupiterAfterFirstFrame)
                + (16/10) * sin (angle jupiterAfterFirstFrame))
    /\ (7/100) * (d * d)
       < distanceToSquared (tw_to tw) (targetCameraPosition jupiterAfterFirstFrame).
Proof.
  apply (transition_misses_follow_point 4 jupiterAfterFirstFrame firstFrame).
  simpl. lra.
Defined.

(** *** Clicks in a row *)

Lemma planets_selections :
  forall hits s, planets (selections hits s) = planets s.
Proof.
  induction hits as [|h hits IH]; intros s; [reflexivity|].
  change (selections (h :: hits) s) with (selections hits (checkPlanetClick h s)).
  now rewrite IH, planets_checkPlanetClick.
Qed.

Lemma selections_snoc :
  forall hits h s,
    selections (hits ++ [h]) s = checkPlanetClick h (selections hits s).
Proof.
  intros hits h s. unfold selections. now rewrite fold_left_app.
Qed.

(** X16. After clicks in a row, the focus is the one of the last click:
    if it hits the mesh of a planet, that planet is referenced, the
    follow mode is on, the overlay shows the planet and the transition
    asked for goes to the point half a distance above and one distance
    behind the planet, the distance being five radii; if it hits the
    Sun, there is no reference, the follow mode is off, the overlay shows
    the Sun and the transition goes to (0, 15, 25); if it hits nothing
    or a child object, the state is the one the earlier clicks left. *)
Theorem last_click_decides_focus :
  forall (hits : list (option Hit)) (s : SolarSystem),
    (forall i p,
        nth_error (planets s) i = Some p ->
        let s' := selections (hits ++ [Some (HitMesh i)]) s in
        currentFocusedPlanet s' = Some i
        /\ cameraFollowMode s' = true
        /\ planetInfo s' = mkPlanetInfo true (name p)
        /\ tween s' =
           Some (mkTween 2
                   (mkVector3 (vx (position (mesh p)))
                      (vy (position (mesh p))
                       + geometry_radius (mesh p) * 5 * (5/10))
                      (vz (position (mesh p)) + geometry_radius (mesh p) * 5))
                   (LookPlanet i)))
    /\ (let s' := selections (hits ++ [Some HitSun]) s in
        currentFocusedPlanet s' = None
        /\ cameraFollowMode s' = false
        /\ planetInfo s' = mkPlanetInfo true "Sun"
        /\ tween s' = Some (mkTween 2 (mkVector3 0 15 25) (LookPoint origin)))
    /\ selections (hits ++ [None]) s = selections hits s
    /\ selections (hits ++ [Some HitChild]) s = selections hits s.
Proof.
  intros hits s. split; [|split; [|split]].
  - intros i p Hp s'. subst s'. rewrite selections_snoc. simpl.
    rewrite planets_selections, Hp. repeat split.
  - rewrite selections_snoc. repeat split.
  - now rewrite selections_snoc.
  - now rewrite selections_snoc.
Qed.

Lemma last_click_decides_focus_witness :
  let hits := [Some HitSun; None; Some (HitMesh 1)] in
  let s' := selections (hits ++ [Some (HitMesh 4)]) firstFrame in
  currentFocusedPlanet s' = Some 4%nat
  /\ cameraFollowMode s' = true
  /\ planetInfo s' = mkPlanetInfo true "Jupiter"
  /\ tween s' =
     Some (mkTween 2
             (mkVector3 (vx (position (mesh jupiterAfterFirstFrame)))
                (vy (position (mesh jupiterAfterFirstFrame))
                 + geometry_radius (mesh jupiterAfterFirstFrame) * 5 * (5/10))
                (vz (position (mesh jupiterAfterFirstFrame))
                 + geometry_radius (mesh jupiterAfterFirstFrame) * 5))
             (LookPlanet 4)).
Proof.
  exact (proj1 (last_click_decides_focus
                  [Some HitSun; None; Some (HitMesh 1)] firstFrame)
           4%nat jupiterAfterFirstFrame eq_refl).
Defined.

(** *** Starting directions *)

(** X17. Whatever the list of descriptors, from an empty registry, the
    planet at index [i + 1] starts [PI / 4] further on its orbit than the
    planet at index [i], and the planet at index [i + 8] starts a full
    turn further, that is in the same direction: with more than eight
    descriptors the starting directions repeat. *)
Theorem starting_angles_repeat_after_eight :
  forall (data : list PlanetData) (s : SolarSystem) (i : nat)
         (d : PlanetData),
    planets s = [] ->
    nth_error data i = Some d ->
    (forall d1, nth_error data (i + 1) = Some d1 ->
       exists p p1,
         nth_error (planets (createSolarSystemWith data s)) i = Some p
         /\ nth_error (planets (createSolarSystemWith data s)) (i + 1) = Some p1
         /\ angle p1 = angle p + PI / 4)
    /\ (forall d8, nth_error data (i + 8) = Some d8 ->
          exists p p8,
            nth_error (planets (createSolarSystemWith data s)) i = Some p
            /\ nth_error (planets (createSolarSystemWith data s)) (i + 8) = Some p8
            /\ angle p8 = angle p + 2 * PI
            /\ cos (angle p8) = cos (angle p)
            /\ sin (angle p8) = sin (angle p)).
Proof.
  intros data s i d Hs Hd.
  rewrite planets_createSolarSystemWith, Hs. simpl.
  rewrite !nth_error_newPlanetsFrom, Hd. simpl.
  split.
  - intros d1 H1. rewrite H1. simpl. do 2 eexists.
    split; [reflexivity|]. split; [reflexivity|].
    simpl. rewrite plus_INR. simpl. field.
  - intros d8 H8. rewrite H8. simpl. do 2 eexists.
    split; [reflexivity|]. split; [reflexivity|].
    assert (E : INR (i + 8) * PI * 2 / 8 = INR i * PI * 2 / 8 + 2 * PI).
    { rewrite plus_INR. simpl. field. }
    simpl. rewrite E. split; [reflexivity|].
    split.
    + rewrite cos_plus, cos_2PI, sin_2PI. ring.
    + rewrite sin_plus, cos_2PI, sin_2PI. ring.
Qed.

Lemma starting_angles_repeat_after_eight_witness :
  let data := planetData ++ planetData in
  (exists p p1,
      nth_error (planets (createSolarSystemWith data constructor)) 3 = Some p
      /\ nth_error (planets (createSolarSystemWith data constructor)) (3 + 1)
         = Some p1
      /\ angle p1 = angle p + PI / 4)
  /\ (exists p p8,
        nth_error (planets (createSolarSystemWith data constructor)) 3 = Some p
        /\ nth_error (planets (createSolarSystemWith data constructor)) (3 + 8)
           = Some p8
        /\ angle p8 = angle p + 2 * PI
        /\ cos (angle p8) = cos (angle p)
        /\ sin (angle p8) = sin (angle p)).
Proof.
  split.
  - exact (proj1 (starting_angles_repeat_after_eight
                    (planetData ++ planetData) constructor 3
                    (mkPlanetData "Mars" (16/10) 12665870%N 20 (5/1000)
                       (9/1000))
                    eq_refl eq_refl)
             (mkPlanetData "Jupiter" (55/10) 14207645%N 28 (1/1000) (2/100))
             eq_refl).
  - exact (proj2 (starting_angles_repeat_after_eight
                    (planetData ++ planetData) constructor 3
                    (mkPlanetData "Mars" (16/10) 12665870%N 20 (5/1000)
                       (9/1000))
                    eq_refl eq_refl)
             (mkPlanetData "Mars" (16/10) 12665870%N 20 (5/1000) (9/1000))
             eq_refl).
Defined.

(** *** The orbit lines *)

Lemma orbitLinePoint_on_circle :
  forall radius i,
    vy (orbitLinePoint radius i) = 0
    /\ lengthSq (orbitLinePoint radius i) = radius * radius.
Proof.
  intros radius i. unfold orbitLinePoint, lengthSq. simpl.
  split; [reflexivity|].
  set (a := INR i / 64 * PI * 2).
  pose proof (sin2_cos2 a) as H. unfold Rsqr in H.
  replace (cos a * radius * (cos a * radius) + 0 * 0
           + sin a * radius * (sin a * radius))
    with ((sin a * sin a + cos a * cos a) * (radius * radius)) by ring.
  rewrite H. ring.
Qed.

(** X18. The line that [createOrbitLine(radius)] draws has 65 points,
    all in the orbital plane and at the distance [radius] from the
    origin (squared: [radius * radius]); its first and its last point
    are both [(radius, 0, 0)], so the line is closed.  In every state the
    page can reach, each planet is at the same distance from the origin
    as every point of the line drawn for its orbit radius. *)
Theorem orbit_line_is_closed_circle :
  (forall radius : R,
      List.length (createOrbitLine radius) = 65%nat
      /\ (forall q, In q (createOrbitLine radius) ->
            vy q = 0 /\ lengthSq q = radius * radius)
      /\ nth_error (createOrbitLine radius) 0 = Some (mkVector3 radius 0 0)
      /\ nth_error (createOrbitLine radius) 64 = Some (mkVector3 radius 0 0))
  /\ (forall s : SolarSystem,
        Reachable s ->
        forall p q,
          In p (planets s) ->
          In q (createOrbitLine (orbitRadius p)) ->
          lengthSq (position (mesh p)) = lengthSq q).
Proof.
  assert (Hin : forall radius q, In q (createOrbitLine radius) ->
                  vy q = 0 /\ lengthSq q = radius * radius).
  { intros radius q H. unfold createOrbitLine in H.
    apply in_map_iff in H. destruct H as (i & <- & _).
    apply orbitLinePoint_on_circle. }
  split.
  - intros radius. split; [reflexivity|]. split; [apply Hin|].
    split.
    + unfold createOrbitLine. simpl nth_error. unfold orbitLinePoint.
      replace (INR 0 / 64 * PI * 2) with 0 by (simpl; lra).
      rewrite cos_0, sin_0. f_equal. f_equal; ring.
    + unfold createOrbitLine.
      rewrite nth_error_map.
      replace (nth_error (seq 0 65) 64) with (Some 64%nat) by reflexivity.
      simpl option_map. unfold orbitLinePoint.
      replace (INR 64 / 64 * PI * 2) with (2 * PI)
        by (replace (INR 64) with 64 by (simpl; lra); field).
      rewrite cos_2PI, sin_2PI. f_equal. f_equal; ring.
  - intros s Hs p q Hp Hq.
    destruct (Hin _ _ Hq) as (_ & ->).
    pose proof (reachable_orbiting s Hs) as H. rewrite Forall_forall in H.
    destruct (H p Hp) as [Ho _]. rewrite Ho.
    unfold lengthSq. simpl.
    pose proof (sin2_cos2 (angle p)) as H2. unfold Rsqr in H2.
    replace (cos (angle p) * orbitRadius p * (cos (angle p) * orbitRadius p)
             + 0 * 0
             + sin (angle p) * orbitRadius p * (sin (angle p) * orbitRadius p))
      with ((sin (angle p) * sin (angle p) + cos (angle p) * cos (angle p))
            * (orbitRadius p * orbitRadius p)) by ring.
    rewrite H2. ring.
Qed.

Lemma orbit_line_is_closed_circle_witness :
  lengthSq (position (mesh (updatePlanet 0 1
    (newPlanet (mkPlanetData "Venus" (18/10) 16762441%N 12 (5/1000)
                  (8/10000)) 1)))) = lengthSq (orbitLinePoint 12 5).
Proof.
  apply (proj2 orbit_line_is_closed_circle firstFrame (reach_init 0)
           (updatePlanet 0 1
              (newPlanet (mkPlanetData "Venus" (18/10) 16762441%N 12 (5/1000)
                            (8/10000)) 1))
           (orbitLinePoint 12 5)).
  - right. left. reflexivity.
  - do 5 right. left. reflexivity.
Defined.

(** *** The star field *)

Lemma starPosition_lengthSq :
  forall r1 r2 r3,
    lengthSq (starPosition r1 r2 r3) = (500 + r1 * 500) * (500 + r1 * 500).
Proof.
  intros r1 r2 r3. unfold starPosition, lengthSq. simpl.
  set (ph := acos (2 * r3 - 1)). set (th := r2 * PI * 2).
  set (rad := 500 + r1 * 500).
  pose proof (sin2_cos2 ph) as Hp. pose proof (sin2_cos2 th) as Ht.
  unfold Rsqr in *.
  replace (rad * sin ph * cos th * (rad * sin ph * cos th)
           + rad * sin ph * sin th * (rad * sin ph * sin th)
           + rad * cos ph * (rad * cos ph))
    with (rad * rad * (sin ph * sin ph * (sin th * sin th + cos th * cos th)
                       + cos ph * cos ph)) by ring.
  rewrite Ht, Rmult_1_r, Hp. ring.
Qed.

(** X19. [createStarField] makes 1000 stars below a window width of 768
    and 2000 otherwise.  As long as [Math.random] returns numbers from 0
    up to but not including 1, every star lies at least 500 and less
    than 1000 from the origin (in squares), and its third coordinate is
    its distance times [2 u - 1], [u] the third random number drawn for
    it. *)
Theorem stars_lie_in_shell :
  forall (innerWidth : R) (random : nat -> R) (call : nat),
    (forall k, 0 <= random k < 1) ->
    let stars := starPositions (starCount innerWidth) random call in
    (innerWidth < 768 -> List.length stars = 1000%nat)
    /\ (768 <= innerWidth -> List.length stars = 2000%nat)
    /\ (forall q, In q stars ->
          500 * 500 <= lengthSq q < 1000 * 1000)
    /\ (forall j, (j < starCount innerWidth)%nat ->
          exists q,
            nth_error stars j = Some q
            /\ vz q = (500 + random (call + 3 * j)%nat * 500)
                      * (2 * random (call + 3 * j + 2)%nat - 1)).
Proof.
  intros innerWidth random call Hr stars.
  assert (Hlen : forall n c, List.length (starPositions n random c) = n).
  { induction n as [|n IH]; intros c; simpl; [reflexivity|].
    now rewrite IH. }
  assert (Hin : forall n c q, In q (starPositions n random c) ->
                  500 * 500 <= lengthSq q < 1000 * 1000).
  { induction n as [|n IH]; intros c q H; simpl in H; [contradiction|].
    destruct H as [<-|H]; [|now apply (IH (c + 3)%nat)].
    rewrite starPosition_lengthSq. destruct (Hr c) as [H0 H1].
    split; nra. }
  assert (Hnth : forall n c j, (j < n)%nat ->
            exists q,
              nth_error (starPositions n random c) j = Some q
              /\ vz q = (500 + random (c + 3 * j)%nat * 500)
                        * (2 * random (c + 3 * j + 2)%nat - 1)).
  { induction n as [|n IH]; intros c j Hj; [lia|].
    destruct j as [|j].
    - eexists. split; [reflexivity|]. simpl.
      rewrite Nat.add_0_r. replace (c + 2)%nat with (S (S c)) by lia.
      rewrite cos_acos; [reflexivity|].
      destruct (Hr (S (S c))). lra.
    - destruct (IH (c + 3)%nat j) as (q & Hq & Hz); [lia|].
      exists q. split; [exact Hq|].
      replace (c + 3 * S j)%nat with (c + 3 + 3 * j)%nat by lia.
      exact Hz. }
  subst stars. split; [|split; [|split]].
  - intros Hw. rewrite Hlen. unfold starCount.
    destruct (Rlt_dec innerWidth 768); [reflexivity|lra].
  - intros Hw. rewrite Hlen. unfold starCount.
    destruct (Rlt_dec innerWidth 768); [lra|reflexivity].
  - intros q Hq. apply (Hin _ _ _ Hq).
  - intros j Hj. now apply Hnth.
Qed.

Lemma stars_lie_in_shell_witness :
  let stars := starPositions (starCount 400) (fun _ => 1/2) 0 in
  (400 < 768 -> List.length stars = 1000%nat)
  /\ (768 <= 400 -> List.length stars = 2000%nat)
  /\ (forall q, In q stars -> 500 * 500 <= lengthSq q < 1000 * 1000)
  /\ (forall j, (j < starCount 400)%nat ->
        exists q,
          nth_error stars j = Some q
          /\ vz q = (500 + (1/2) * 500) * (2 * (1/2) - 1)).
Proof.
  apply (stars_lie_in_shell 400 (fun _ => 1/2) 0).
  intros k. lra.
Defined.

(** *** The texts of the panel buttons *)

Lemma panelInvariant_setup :
  forall w, panelInvariant (Panel.setupControlPanels w).
Proof.
  intros w. unfold Panel.setupControlPanels, Panel.createMobileToggleButton.
  destruct (Rle_dec w 768) as [H|H].
  - destruct (Rlt_dec 768 w); [lra|]. split; simpl.
    + split; discriminate.
    + intros b [= <-]. simpl. split; reflexivity.
  - split; simpl.
    + split; discriminate.
    + intros b Hb. discriminate Hb.
Qed.

Lemma panelInvariant_step :
  forall e p, panelInvariant p -> panelInvariant (Panel.handlePanel e p).
Proof.
  intros e p [Ht Hm]. destruct e as [| |w]; simpl.
  - unfold Panel.togglePanelClick.
    destruct (Panel.collapsed p); split; simpl; auto;
      split; intros; congruence.
  - unfold Panel.mobileToggleClick.
    destruct (Panel.mobileToggle p) as [b|] eqn:Eb.
    + destruct (Panel.mobileHidden p); split; simpl; auto;
        intros b' [= <-]; simpl; split; intros; congruence.
    + split; auto. intros b Hb. rewrite Eb in Hb. discriminate.
  - unfold Panel.mobileResize.
    destruct (Panel.mobileToggle p) as [b|] eqn:Eb.
    + destruct (Hm b eq_refl) as [Hg Hd].
      destruct (Rle_dec w 768).
      * destruct (Panel.mobileHidden p) eqn:Eh; simpl; split; simpl; auto;
          intros b' [= <-]; simpl; split; auto.
      * split; simpl; auto. intros b' [= <-]. simpl.
        split; intros; discriminate.
    + split; auto. intros b Hb. rewrite Eb in Hb. discriminate.
Qed.

Lemma panelInvariant_reachable :
  forall p, Panel.PanelReachable p -> panelInvariant p.
Proof.
  induction 1 as [w|e p _ IH].
  - apply panelInvariant_setup.
  - now apply panelInvariant_step.
Qed.

(** X20. Whatever the window width at setup and whatever clicks and
    resizes follow, the text of the collapse button is the plus sign
    exactly when the controls panel is collapsed, and the mobile toggle
    button, when it is displayed, shows the gear exactly when the panel
    carries the class [mobile-hidden]. *)
Theorem panel_texts_agree :
  forall p : Panel.Panels, Panel.PanelReachable p -> Panel.textsAgree p.
Proof.
  intros p Hp. destruct (panelInvariant_reachable p Hp) as [Ht Hm].
  split; [exact Ht|].
  intros b Hb Hd. destruct (Hm b Hb) as [H1 H2].
  split; auto.
Qed.

Lemma panel_texts_agree_witness :
  Panel.textsAgree
    (Panel.handlePanel (Panel.WindowResize 500)
       (Panel.handlePanel Panel.MobileToggleClick
          (Panel.setupControlPanels 600))).
Proof.
  exact (panel_texts_agree _
           (Panel.panel_step (Panel.WindowResize 500) _
              (Panel.panel_step Panel.MobileToggleClick _
                 (Panel.panel_setup 600)))).
Defined.
